(** * A FAT file system inside one image file: model of [fatfs.c]

    The development follows the C source function by function.  The global
    [FileSystem fs] of the program is threaded explicitly through every
    operation; integer fields are [Z] with the wrap-around of their C type
    written out ([u16], [u32]); C strings are Rocq strings (file names) or
    byte lists (file contents); the clock [time(NULL)] is the argument [now].

    Each [return -1] of the source is told apart by the message it prints
    just before; the messages are the constructors of [Error]. *)

From Stdlib Require Import ZArith List String Lia.
From Stdlib.Strings Require Import Byte.
From stdpp Require Import base tactics option numbers list functions strings.

Open Scope Z_scope.

(** ** Constants ([fatfs.c], lines 35-47) *)

Definition BLOCK_SIZE : Z := 1024.
Definition TOTAL_DISK_SIZE : Z := 64 * 1024 * 1024.
Definition MAX_BLOCKS : Z := TOTAL_DISK_SIZE / BLOCK_SIZE.
Definition MAX_FILES_IN_DIR : nat := 128.
Definition MAX_FILENAME_SIZE : Z := 64.
Definition MAX_FILE_BLOCKS : Z := 128.
Definition FAT_ENTRY_FREE : Z := 0xFFFF.
Definition FAT_ENTRY_EOF : Z := 0xFFFE.
Definition FAT_ENTRY_BAD : Z := 0xFFFD.

Definition TYPE_FILE : Z := 0.
Definition TYPE_DIRECTORY : Z := 1.

(** Conversions to [uint8_t], [uint16_t] and [uint32_t]. *)
Definition u8 (x : Z) : Z := x mod 2 ^ 8.
Definition u16 (x : Z) : Z := x mod 2 ^ 16.
Definition u32 (x : Z) : Z := x mod 2 ^ 32.

(** ** Structures (lines 49-86) *)

Record BootSector := mkBootSector {
  signature : string;
  total_blocks : Z;
  fat_blocks : Z;
  root_dir_block : Z;
  data_start_block : Z;
  block_size : Z;
  fat_copies : Z;
  volume_label : string;
  boot_created_time : Z
}.

Record DirectoryEntry := mkDirectoryEntry {
  filename : string;
  file_size : Z;
  first_block : Z;
  type : Z;
  created_time : Z;
  modified_time : Z;
  attributes : Z
}.

Record Directory := mkDirectory {
  entries : list DirectoryEntry;
  entry_count : Z
}.

(** [memset(&entry, 0, sizeof(DirectoryEntry))] and
    [memset(&dir, 0, sizeof(Directory))]. *)
Definition zero_entry : DirectoryEntry :=
  mkDirectoryEntry "" 0 0 0 0 0 0.

Definition zero_directory : Directory :=
  mkDirectory (replicate MAX_FILES_IN_DIR zero_entry) 0.

Definition zero_boot_sector : BootSector :=
  mkBootSector "" 0 0 0 0 0 0 "" 0.

#[global] Instance DirectoryEntry_inhabited : Inhabited DirectoryEntry :=
  populate zero_entry.

#[global] Instance byte_eq_dec : EqDecision byte := Byte.byte_eq_dec.

(** ** The image file

    Block 0 holds the boot sector and the blocks after it the table; every
    other block is written by the program either from a [Directory] or from
    a byte buffer.  The source says of [Directory] that it "occupies one
    block", and so does the model: a block holds a whole [Directory] or
    [BLOCK_SIZE] bytes.  How the bytes of one are seen as the other is the
    compiler's struct layout; it is the parameter [Layout], about which
    nothing is assumed. *)

Inductive Block :=
| DataBlock (bytes : list byte)
| DirBlock (dir : Directory).

Class Layout := {
  dir_of_bytes : list byte → Directory;
  bytes_of_dir : Directory → list byte
}.

Definition block_dir `{Layout} (b : Block) : Directory :=
  match b with
  | DirBlock d => d
  | DataBlock bs => dir_of_bytes bs
  end.

Definition block_bytes `{Layout} (b : Block) : list byte :=
  match b with
  | DataBlock bs => bs
  | DirBlock d => bytes_of_dir d
  end.

(** The table is a C array of [MAX_BLOCKS] cells of type [uint16_t]; the
    program indexes it with [uint16_t] values and with the counter of
    [allocate_block], which stays below [total_blocks].  It is a total map
    from index to cell, updated with [<[i:=v]>]. *)
Abbreviation FAT := (Z → Z) (only parsing).

Record Image := mkImage {
  img_boot : BootSector;          (* block 0 *)
  img_fat : FAT;                  (* blocks 1 .. fat_blocks, as cells *)
  img_blocks : Z → Block          (* the blocks after the table *)
}.

(** The mounted context (the global [fs]); [disk_file] is the open image. *)
Record FileSystem := mkFileSystem {
  disk_file : Image;
  boot_sector : BootSector;
  fat_table : FAT;
  current_dir_block : Z;
  current_path : string
}.

Definition set_fat_table (fs : FileSystem) (fat : FAT) : FileSystem :=
  mkFileSystem (disk_file fs) (boot_sector fs) fat
               (current_dir_block fs) (current_path fs).

Definition set_disk_file (fs : FileSystem) (img : Image) : FileSystem :=
  mkFileSystem img (boot_sector fs) (fat_table fs)
               (current_dir_block fs) (current_path fs).

Inductive Error :=
| IoError        (* a silent [return -1] after a failed block transfer *)
| NotFound       (* "File not found" *)
| NotAFile       (* "Not a file" *)
| NameTooLong    (* "Filename too long" *)
| Exists         (* "File already exists" *)
| DirFull        (* "Directory full" *)
| OutOfSpace     (* "No free space available" *)
| TooLarge       (* "File too large" *)
| Grow.          (* "New size larger than current size" *)

Inductive Status :=
| OK                (* return 0 *)
| Fail (e : Error). (* return -1 *)

(** ** Low-level block operations (lines 104-120) *)

Section Operations.
Context `{Layout}.

Definition read_block (fs : FileSystem) (block_num : Z) : option Block :=
  if decide (block_num >= total_blocks (boot_sector fs)) then None
  else Some (img_blocks (disk_file fs) block_num).

Definition write_block (fs : FileSystem) (block_num : Z) (b : Block)
  : option FileSystem :=
  if decide (block_num >= total_blocks (boot_sector fs)) then None
  else
    let img := disk_file fs in
    Some (set_disk_file fs
            (mkImage (img_boot img) (img_fat img)
                     (<[block_num := b]> (img_blocks img)))).

(** The loop "Write updated FAT to disk": block [1 + j] receives the cells
    [512 * j .. 512 * j + 511] for every [j < fat_blocks]; the result of
    [write_block] is ignored, so a block beyond [total_blocks] is skipped. *)
Definition flush_fat (fs : FileSystem) : FileSystem :=
  let img := disk_file fs in
  let bs := boot_sector fs in
  set_disk_file fs
    (mkImage (img_boot img)
       (λ i, if decide (0 ≤ i ∧ i / (BLOCK_SIZE / 2) < fat_blocks bs
                        ∧ 1 + i / (BLOCK_SIZE / 2) < total_blocks bs)
             then fat_table fs i else img_fat img i)
       (img_blocks img)).

(** ** FAT table operations (lines 123-152) *)

(** The scan [for (i = data_start_block; i < total_blocks; i++)] with [n]
    indices left. *)
Fixpoint allocate_scan (n : nat) (i : Z) (fat : FAT) : option Z :=
  match n with
  | O => None
  | S n' =>
      if decide (fat i = FAT_ENTRY_FREE) then Some i
      else allocate_scan n' (i + 1) fat
  end.

Definition allocate_block (fs : FileSystem) : Z * FileSystem :=
  let bs := boot_sector fs in
  match allocate_scan (Z.to_nat (total_blocks bs - data_start_block bs))
                      (data_start_block bs) (fat_table fs) with
  | Some i =>
      (u16 i,
       flush_fat (set_fat_table fs (<[i := FAT_ENTRY_EOF]> (fat_table fs))))
  | None => (FAT_ENTRY_FREE, fs)
  end.

(** The [while] loop of [free_blocks].  [fuel] bounds the number of
    iterations; [None] means the bound was reached ([free_loop_total] shows
    that [free_fuel] iterations always suffice). *)
Fixpoint free_loop (fuel : nat) (fat : FAT) (current_block : Z)
  : option FAT :=
  if decide (current_block ≠ FAT_ENTRY_EOF ∧ current_block ≠ FAT_ENTRY_FREE)
  then
    match fuel with
    | O => None
    | S fuel' =>
        let next_block := fat current_block in
        free_loop fuel' (<[current_block := FAT_ENTRY_FREE]> fat) next_block
    end
  else Some fat.

Definition free_fuel : nat := Z.to_nat (MAX_BLOCKS + 2).

Definition free_blocks (fs : FileSystem) (first_block : Z)
  : option FileSystem :=
  fat ← free_loop free_fuel (fat_table fs) first_block;
  Some (flush_fat (set_fat_table fs fat)).

(** ** Directory operations (lines 155-182) *)

Definition read_dir (fs : FileSystem) (dir_block : Z) : option Directory :=
  block_dir <$> read_block fs dir_block.

Definition find_free_directory_entry (fs : FileSystem) (dir_block : Z)
  : option nat :=
  dir ← read_dir fs dir_block;
  fst <$> list_find (λ e, filename e = "")
                    (take MAX_FILES_IN_DIR (entries dir)).

Definition find_file_in_directory (fs : FileSystem) (dir_block : Z)
    (name : string) : option nat :=
  dir ← read_dir fs dir_block;
  fst <$> list_find (λ e, filename e ≠ "" ∧ filename e = name)
                    (take MAX_FILES_IN_DIR (entries dir)).

Definition set_entry (dir : Directory) (i : nat) (e : DirectoryEntry)
  : Directory :=
  mkDirectory (<[i := e]> (entries dir)) (entry_count dir).

Definition set_entry_count (dir : Directory) (n : Z) : Directory :=
  mkDirectory (entries dir) n.

(** ** Format and mount (lines 185-367) *)

Definition zero_image : Image :=
  mkImage zero_boot_sector (λ _, 0)
          (λ _, DataBlock (replicate (Z.to_nat BLOCK_SIZE) x00)).

Definition format_boot_sector (now : Z) : BootSector :=
  let fat_entries := MAX_BLOCKS in
  let fat_blocks := u32 (u32 (u32 (fat_entries * 2) + BLOCK_SIZE - 1)
                         / BLOCK_SIZE) in
  let root_dir_block := u32 (1 + fat_blocks) in
  let data_start_block := u32 (root_dir_block + 1) in
  mkBootSector "MYFATFS" MAX_BLOCKS fat_blocks root_dir_block
               data_start_block (u16 BLOCK_SIZE) 1 "MYVOLUME" (u32 now).

(** The table built by [format_partition]: all cells [FAT_ENTRY_FREE], then
    the system blocks [FAT_ENTRY_BAD]. *)
Definition format_fat (bs : BootSector) : FAT :=
  λ i, if decide (0 ≤ i ∧ i < data_start_block bs) then FAT_ENTRY_BAD
       else FAT_ENTRY_FREE.

Definition format_partition (now : Z) (img : Image) : Image :=
  let bs := format_boot_sector now in
  mkImage bs
    (λ i, if decide (0 ≤ i ∧ i / (BLOCK_SIZE / 2) < fat_blocks bs)
          then format_fat bs i else img_fat img i)
    (<[root_dir_block bs := DirBlock zero_directory]> (img_blocks img)).

Definition create_partition (now : Z) : Image :=
  format_partition now zero_image.

(** [buf] is the content of the buffer that [malloc] returns for the table;
    the read loop fills the cells of the first [fat_blocks] blocks. *)
Definition mount_partition (buf : FAT) (img : Image) : option FileSystem :=
  let bs := img_boot img in
  if decide (signature bs ≠ "MYFATFS") then None
  else
    Some (mkFileSystem img bs
            (λ i, if decide (0 ≤ i ∧ i / (BLOCK_SIZE / 2) < fat_blocks bs)
                  then img_fat img i else buf i)
            (root_dir_block bs) "/").

Definition unmount_partition (fs : FileSystem) : Image := disk_file fs.

(** ** File operations (lines 370-647) *)

Definition create_file (now : Z) (name : string) (fs : FileSystem)
  : Status * FileSystem :=
  if decide (Z.of_nat (String.length name) >= MAX_FILENAME_SIZE)
  then (Fail NameTooLong, fs)
  else
    match read_dir fs (current_dir_block fs) with
    | None => (Fail IoError, fs)
    | Some dir =>
        match find_file_in_directory fs (current_dir_block fs) name with
        | Some _ => (Fail Exists, fs)
        | None =>
            match find_free_directory_entry fs (current_dir_block fs) with
            | None => (Fail DirFull, fs)
            | Some entry_index =>
                let entry :=
                  mkDirectoryEntry name 0 FAT_ENTRY_EOF TYPE_FILE
                                   (u32 now) (u32 now) 0 in
                let dir := set_entry dir entry_index entry in
                let dir := set_entry_count dir (u16 (entry_count dir + 1)) in
                match write_block fs (current_dir_block fs) (DirBlock dir) with
                | None => (Fail IoError, fs)
                | Some fs => (OK, fs)
                end
            end
        end
    end.

Definition delete_file (name : string) (fs : FileSystem)
  : option (Status * FileSystem) :=
  match read_dir fs (current_dir_block fs) with
  | None => Some (Fail IoError, fs)
  | Some dir =>
      match find_file_in_directory fs (current_dir_block fs) name with
      | None => Some (Fail NotFound, fs)
      | Some entry_index =>
          let entry := entries dir !!! entry_index in
          if decide (type entry ≠ TYPE_FILE) then Some (Fail NotAFile, fs)
          else
            fs ← (if decide (first_block entry ≠ FAT_ENTRY_EOF)
                  then free_blocks fs (first_block entry) else Some fs);
            let dir := set_entry dir entry_index zero_entry in
            let dir := set_entry_count dir (u16 (entry_count dir - 1)) in
            match write_block fs (current_dir_block fs) (DirBlock dir) with
            | None => Some (Fail IoError, fs)
            | Some fs => Some (OK, fs)
            end
      end
  end.

(** The [while] loop of [read_file]; [out] collects what [fwrite] sends to
    the standard output.  [fuel] bounds the iterations ([read_loop_total]:
    the number of blocks of [bytes_remaining] suffices). *)
Fixpoint read_loop (fuel : nat) (fs : FileSystem) (current_block : Z)
    (bytes_remaining : Z) (out : list byte) : option (Status * list byte) :=
  if decide (current_block ≠ FAT_ENTRY_EOF ∧ bytes_remaining > 0) then
    match fuel with
    | O => None
    | S fuel' =>
        match read_block fs current_block with
        | None => Some (Fail IoError, out)
        | Some b =>
            let buffer := block_bytes b in
            let bytes_to_print :=
              if decide (bytes_remaining > BLOCK_SIZE) then BLOCK_SIZE
              else bytes_remaining in
            read_loop fuel' fs (fat_table fs current_block)
                      (bytes_remaining - bytes_to_print)
                      (out ++ take (Z.to_nat bytes_to_print) buffer)
        end
    end
  else Some (OK, out).

(** Number of blocks that hold [size] bytes. *)
Definition blocks_for (size : Z) : Z := (size + BLOCK_SIZE - 1) / BLOCK_SIZE.

Definition read_file (name : string) (fs : FileSystem)
  : option (Status * list byte) :=
  match read_dir fs (current_dir_block fs) with
  | None => Some (Fail IoError, [])
  | Some dir =>
      match find_file_in_directory fs (current_dir_block fs) name with
      | None => Some (Fail NotFound, [])
      | Some entry_index =>
          let entry := entries dir !!! entry_index in
          if decide (type entry ≠ TYPE_FILE) then Some (Fail NotAFile, [])
          else if decide (file_size entry = 0) then Some (OK, [])
          else
            read_loop (Z.to_nat (blocks_for (file_size entry))) fs
                      (first_block entry) (file_size entry) []
      end
  end.

(** [strlen]: the bytes before the first NUL; a byte list without NUL is a
    C string whose terminator follows its last byte. *)
Fixpoint strlen (s : list byte) : nat :=
  match s with
  | [] => O
  | b :: s' => if decide (b = x00) then O else S (strlen s')
  end.

Inductive WriteLoop :=
| WriteDone (fs : FileSystem) (first_block prev_block : Z)
| WriteFail (e : Error) (fs : FileSystem).

(** The [while (bytes_remaining > 0)] loop of [write_file].  [fuel] bounds
    the iterations ([write_loop_total]: the number of blocks of
    [bytes_remaining] suffices). *)
Fixpoint write_loop (fuel : nat) (fs : FileSystem) (data_ptr : list byte)
    (bytes_remaining : Z) (first_block prev_block : Z) : option WriteLoop :=
  if decide (bytes_remaining > 0) then
    match fuel with
    | O => None
    | S fuel' =>
        let '(new_block, fs) := allocate_block fs in
        if decide (new_block = FAT_ENTRY_FREE) then
          fs ← (if decide (first_block ≠ FAT_ENTRY_EOF)
                then free_blocks fs first_block else Some fs);
          Some (WriteFail OutOfSpace fs)
        else
          let first_block :=
            if decide (first_block = FAT_ENTRY_EOF) then new_block
            else first_block in
          let fs :=
            if decide (prev_block ≠ FAT_ENTRY_EOF)
            then set_fat_table fs (<[prev_block := new_block]> (fat_table fs))
            else fs in
          let bytes_to_write :=
            if decide (bytes_remaining > BLOCK_SIZE) then BLOCK_SIZE
            else bytes_remaining in
          let block_data :=
            take (Z.to_nat bytes_to_write) data_ptr
            ++ replicate (Z.to_nat (BLOCK_SIZE - bytes_to_write)) x00 in
          match write_block fs new_block (DataBlock block_data) with
          | None =>
              fs ← free_blocks fs first_block;
              Some (WriteFail IoError fs)
          | Some fs =>
              write_loop fuel' fs (drop (Z.to_nat bytes_to_write) data_ptr)
                         (bytes_remaining - bytes_to_write)
                         first_block new_block
          end
    end
  else Some (WriteDone fs first_block prev_block).

Definition set_file (e : DirectoryEntry) (first size mtime : Z)
  : DirectoryEntry :=
  mkDirectoryEntry (filename e) size first (type e) (created_time e) mtime
                   (attributes e).

Definition write_file (now : Z) (name : string) (data : list byte)
    (fs : FileSystem) : option (Status * FileSystem) :=
  match read_dir fs (current_dir_block fs) with
  | None => Some (Fail IoError, fs)
  | Some dir =>
      match find_file_in_directory fs (current_dir_block fs) name with
      | None => Some (Fail NotFound, fs)
      | Some entry_index =>
          let entry := entries dir !!! entry_index in
          if decide (type entry ≠ TYPE_FILE) then Some (Fail NotAFile, fs)
          else
            let data_size := u32 (Z.of_nat (strlen data)) in
            if decide (data_size > MAX_FILE_BLOCKS * BLOCK_SIZE)
            then Some (Fail TooLarge, fs)
            else
              fs ← (if decide (first_block entry ≠ FAT_ENTRY_EOF)
                    then free_blocks fs (first_block entry) else Some fs);
              r ← write_loop (Z.to_nat (blocks_for data_size)) fs data
                             data_size FAT_ENTRY_EOF FAT_ENTRY_EOF;
              match r with
              | WriteFail e fs => Some (Fail e, fs)
              | WriteDone fs first_block prev_block =>
                  let fs :=
                    if decide (prev_block ≠ FAT_ENTRY_EOF)
                    then set_fat_table fs
                           (<[prev_block := FAT_ENTRY_EOF]> (fat_table fs))
                    else fs in
                  let entry := set_file entry first_block data_size (u32 now) in
                  let dir := set_entry dir entry_index entry in
                  match write_block fs (current_dir_block fs) (DirBlock dir)
                  with
                  | None => Some (Fail IoError, fs)
                  | Some fs => Some (OK, flush_fat fs)
                  end
              end
      end
  end.

(** The [for] loop of [truncate_file]: at most [n] steps along the chain,
    returning [(current_block, prev_block)]. *)
Fixpoint truncate_walk (n : nat) (fat : FAT) (current_block prev_block : Z)
  : Z * Z :=
  match n with
  | O => (current_block, prev_block)
  | S n' =>
      if decide (current_block ≠ FAT_ENTRY_EOF)
      then truncate_walk n' fat (fat current_block) current_block
      else (current_block, prev_block)
  end.

Definition truncate_file (now : Z) (name : string) (new_size : Z)
    (fs : FileSystem) : option (Status * FileSystem) :=
  match read_dir fs (current_dir_block fs) with
  | None => Some (Fail IoError, fs)
  | Some dir =>
      match find_file_in_directory fs (current_dir_block fs) name with
      | None => Some (Fail NotFound, fs)
      | Some entry_index =>
          let entry := entries dir !!! entry_index in
          if decide (type entry ≠ TYPE_FILE) then Some (Fail NotAFile, fs)
          else if decide (new_size > file_size entry)
          then Some (Fail Grow, fs)
          else if decide (new_size = file_size entry) then Some (OK, fs)
          else
            let blocks_needed := u32 (new_size + BLOCK_SIZE - 1) / BLOCK_SIZE in
            let '(current_block, prev_block) :=
              truncate_walk (Z.to_nat blocks_needed) (fat_table fs)
                            (first_block entry) FAT_ENTRY_EOF in
            fs ← (if decide (current_block ≠ FAT_ENTRY_EOF) then
                    fs ← free_blocks fs current_block;
                    Some (if decide (prev_block ≠ FAT_ENTRY_EOF)
                          then set_fat_table fs
                                 (<[prev_block := FAT_ENTRY_EOF]> (fat_table fs))
                          else fs)
                  else Some fs);
            let entry :=
              set_file entry (first_block entry) new_size (u32 now) in
            let dir := set_entry dir entry_index entry in
            match write_block fs (current_dir_block fs) (DirBlock dir) with
            | None => Some (Fail IoError, fs)
            | Some fs => Some (OK, fs)
            end
      end
  end.

(** ** Directories (lines 650-752) *)

Definition set_dir_entry (e : DirectoryEntry) (name : string)
    (first ctime : Z) : DirectoryEntry :=
  mkDirectoryEntry name (file_size e) first TYPE_DIRECTORY ctime ctime
                   (attributes e).

Definition create_directory (now : Z) (dirname : string) (fs : FileSystem)
  : option (Status * FileSystem) :=
  if decide (Z.of_nat (String.length dirname) >= MAX_FILENAME_SIZE)
  then Some (Fail NameTooLong, fs)
  else
    match read_dir fs (current_dir_block fs) with
    | None => Some (Fail IoError, fs)
    | Some current_dir =>
        match find_file_in_directory fs (current_dir_block fs) dirname with
        | Some _ => Some (Fail Exists, fs)
        | None =>
            match find_free_directory_entry fs (current_dir_block fs) with
            | None => Some (Fail DirFull, fs)
            | Some entry_index =>
                let '(dir_block, fs) := allocate_block fs in
                if decide (dir_block = FAT_ENTRY_FREE)
                then Some (Fail OutOfSpace, fs)
                else
                  let new_dir := zero_directory in
                  let new_dir :=
                    set_entry new_dir 0
                      (set_dir_entry (entries new_dir !!! 0%nat) "."
                                     dir_block (u32 now)) in
                  let new_dir :=
                    set_entry new_dir 1
                      (set_dir_entry (entries new_dir !!! 1%nat) ".."
                                     (u16 (current_dir_block fs)) (u32 now)) in
                  let new_dir := set_entry_count new_dir 2 in
                  match write_block fs dir_block (DirBlock new_dir) with
                  | None =>
                      fs ← free_blocks fs dir_block;
                      Some (Fail IoError, fs)
                  | Some fs =>
                      let entry :=
                        set_dir_entry (entries current_dir !!! entry_index)
                                      dirname dir_block (u32 now) in
                      let current_dir :=
                        set_entry current_dir entry_index entry in
                      let current_dir :=
                        set_entry_count current_dir
                          (u16 (entry_count current_dir + 1)) in
                      match write_block fs (current_dir_block fs)
                                        (DirBlock current_dir) with
                      | None => Some (Fail IoError, fs)
                      | Some fs => Some (OK, fs)
                      end
                  end
            end
        end
    end.


End Operations.

(** * Vocabulary of the statements *)

(** Every cell of the table holds a [uint16_t]. *)
Definition fat_wf (fat : FAT) : Prop :=
  ∀ i, 0 ≤ i < MAX_BLOCKS → 0 ≤ fat i < MAX_BLOCKS.

(** The same as a check of the [n] cells from index [i] on. *)
Fixpoint cells_u16 (n : nat) (i : Z) (fat : FAT) : bool :=
  match n with
  | O => true
  | S n' => bool_decide (0 ≤ fat i < MAX_BLOCKS) && cells_u16 n' (i + 1) fat
  end.

(** The geometry that [format_partition] writes into the boot sector. *)
Definition formatted (bs : BootSector) : Prop :=
  total_blocks bs = 65536 ∧ fat_blocks bs = 128
  ∧ root_dir_block bs = 129 ∧ data_start_block bs = 130.

(** The two values that stop the walk of [free_blocks]. *)
Definition stops (b : Z) : Prop := b = FAT_ENTRY_EOF ∨ b = FAT_ENTRY_FREE.

#[global] Instance stops_dec b : Decision (stops b).
Proof. unfold stops. apply _. Defined.

(** The walk of [free_blocks] as a relation: [free_path fat b l] when the
    loop entered with table [fat] and [current_block = b] visits the blocks
    [l], in this order, and then leaves. *)
Inductive free_path : FAT → Z → list Z → Prop :=
| free_path_stop fat b :
    stops b → free_path fat b []
| free_path_step fat b l :
    ¬ stops b →
    free_path (<[b := FAT_ENTRY_FREE]> fat) (fat b) l →
    free_path fat b (b :: l).

(** The first [n] blocks of the chain that starts at [b]: the next
    pointers are followed until one is [FAT_ENTRY_EOF] or [FAT_ENTRY_FREE]. *)
Fixpoint chain (n : nat) (fat : FAT) (b : Z) : list Z :=
  match n with
  | O => []
  | S n' => if decide (stops b) then [] else b :: chain n' fat (fat b)
  end.

(** The first [n] blocks of the chain as [read_file] and [truncate_file]
    follow it: only [FAT_ENTRY_EOF] ends it. *)
Fixpoint eof_chain (n : nat) (fat : FAT) (b : Z) : list Z :=
  match n with
  | O => []
  | S n' =>
      if decide (b = FAT_ENTRY_EOF) then [] else b :: eof_chain n' fat (fat b)
  end.

(** [linked fat b l]: the chain that starts at [b] runs through the blocks
    [l], in this order, and ends with [FAT_ENTRY_EOF]. *)
Fixpoint linked (fat : FAT) (b : Z) (l : list Z) : Prop :=
  match l with
  | [] => b = FAT_ENTRY_EOF
  | x :: l' => b = x ∧ linked fat (fat x) l'
  end.


(** What the loop of [write_file] keeps true, entered in state [fs0]: it has
    allocated the blocks [A], all below the index 0xFFFE, linked them into
    the chain of [first] that ends at [prev], and filled them with the
    buffers [W]; the rest of the table and of the disk is as in [fs0]. *)
Record write_inv (fs0 fs : FileSystem) (first prev : Z) (A : list Z)
    (W : list (list byte)) : Prop := {
  wi_boot : boot_sector fs = boot_sector fs0;
  wi_cur : current_dir_block fs = current_dir_block fs0;
  wi_range : ∀ x, x ∈ A → 130 ≤ x < 65534;
  wi_nodup : NoDup A;
  wi_linked : linked (fat_table fs) first A;
  wi_prev : prev = default FAT_ENTRY_EOF (last A);
  wi_fat : ∀ x, x ∉ A → fat_table fs x = fat_table fs0 x;
  wi_data :
    Forall2 (λ x c, img_blocks (disk_file fs) x = DataBlock c) A W;
  wi_disk :
    ∀ x, x ∉ A → img_blocks (disk_file fs) x = img_blocks (disk_file fs0) x
}.

(** The part of it that a failed allocation needs in order to undo the
    partial chain. *)
Record chain_inv (fs0 fs : FileSystem) (first : Z) (A : list Z) : Prop := {
  ci_boot : boot_sector fs = boot_sector fs0;
  ci_cur : current_dir_block fs = current_dir_block fs0;
  ci_range : ∀ x, x ∈ A → 130 ≤ x < 65534;
  ci_linked : linked (fat_table fs) first A;
  ci_fat : ∀ x, x ∉ A → ¬ stops x → fat_table fs x = fat_table fs0 x;
  ci_disk :
    ∀ x, x < 130 → img_blocks (disk_file fs) x = img_blocks (disk_file fs0) x
}.

(** Number of cells among the first [n] that are not [FAT_ENTRY_FREE]. *)
Definition used_cells (n : Z) (fat : FAT) : nat :=
  length (filter (λ i, fat i ≠ FAT_ENTRY_FREE) (seqZ 0 n)).

Section Observers.
Context `{Layout}.

(** The directory entry called [name] in the current directory. *)
Definition stat (fs : FileSystem) (name : string) : option DirectoryEntry :=
  dir ← read_dir fs (current_dir_block fs);
  i ← find_file_in_directory fs (current_dir_block fs) name;
  Some (entries dir !!! i).

(** Block [b] can be read and holds [BLOCK_SIZE] bytes. *)
Definition block_ok (fs : FileSystem) (b : Z) : Prop :=
  b < total_blocks (boot_sector fs)
  ∧ length (block_bytes (img_blocks (disk_file fs) b)) = Z.to_nat BLOCK_SIZE.

(** The bytes of the blocks [l], one after the other. *)
Definition blocks_bytes (fs : FileSystem) (l : list Z) : list byte :=
  concat (map (λ b, block_bytes (img_blocks (disk_file fs) b)) l).

End Observers.

(** Membership of a list whose elements are in sight. *)
Ltac in_list :=
  solve [ repeat first [ assumption
                       | apply list_elem_of_here
                       | apply list_elem_of_further ] ].

(** * Vocabulary of the statements about whole operations *)

(** The entry that [create_file] writes. *)
Definition new_file_entry (now : Z) (name : string) : DirectoryEntry :=
  mkDirectoryEntry name 0 FAT_ENTRY_EOF TYPE_FILE (u32 now) (u32 now) 0.



(** The state in which a run of the loop of [write_file] ends. *)
Definition write_loop_state (res : WriteLoop) : FileSystem :=
  match res with
  | WriteDone fs _ _ => fs
  | WriteFail _ fs => fs
  end.

(** The FAT blocks of the image hold the table that is in memory. *)
Definition synced (fs : FileSystem) : Prop :=
  ∀ i, 0 ≤ i < MAX_BLOCKS → img_fat (disk_file fs) i = fat_table fs i.

(** The context that [mount_partition] builds on a formatted image: the
    boot sector in memory is the one of the image, with the signature and
    the geometry of [format_partition], and the current directory is the
    root. *)
Definition mounted (fs : FileSystem) : Prop :=
  img_boot (disk_file fs) = boot_sector fs
  ∧ signature (boot_sector fs) = "MYFATFS"
  ∧ formatted (boot_sector fs)
  ∧ current_dir_block fs = root_dir_block (boot_sector fs).

Section Files.
Context `{Layout}.

(** Entry [e] stores [content]: its chain runs through the data blocks [A],
    all distinct and below 0xFFFE, as many as [file_size] bytes need, and
    [content] is the first [file_size] bytes of these blocks. *)
Record stores (fs : FileSystem) (e : DirectoryEntry) (A : list Z)
    (content : list byte) : Prop := {
  st_linked : linked (fat_table fs) (first_block e) A;
  st_nodup : NoDup A;
  st_range : ∀ x, x ∈ A → 130 ≤ x < 65534;
  st_length : length A = Z.to_nat (blocks_for (file_size e));
  st_blocks : Forall (block_ok fs) A;
  st_size : 0 ≤ file_size e ≤ MAX_FILE_BLOCKS * BLOCK_SIZE;
  st_content :
    content = take (Z.to_nat (file_size e)) (blocks_bytes fs A)
}.


End Files.

(** * Concrete images

    The states below are built by running the operations from a freshly
    created image.  They never read a directory block as bytes or a data
    block as a directory, so the layout they run under does not matter;
    [example_layout] is one. *)

Definition example_layout : Layout :=
  {| dir_of_bytes := λ _, zero_directory;
     bytes_of_dir := λ _, replicate (Z.to_nat BLOCK_SIZE) x00 |}.

(** The global [fs] after [memset(&fs, 0, sizeof(FileSystem))] in [main]. *)
Definition fs_zero : FileSystem :=
  mkFileSystem zero_image zero_boot_sector (λ _, 0) 0 "".

Definition hello : list byte := list_byte_of_string "hello".

(** The entry of [a.txt] once [hello] is written to it at time 2. *)
Definition hello_entry : DirectoryEntry :=
  mkDirectoryEntry "a.txt" 5 130 TYPE_FILE 1 2 0.

Section Scenarios.
#[local] Existing Instance example_layout.

(** [format img], [mount img]. *)
Definition fs_fresh : FileSystem :=
  default fs_zero (mount_partition (λ _, 0) (create_partition 0)).

(** ... [create a.txt]. *)
Definition fs_created : FileSystem := (create_file 1 "a.txt" fs_fresh).2.

(** ... [write a.txt hello]. *)
Definition fs_hello : FileSystem :=
  from_option snd fs_created (write_file 2 "a.txt" hello fs_created).

(** ... [mkdir d]. *)
Definition fs_hello_dir : FileSystem :=
  from_option snd fs_hello (create_directory 3 "d" fs_hello).

(** The image of [fs] with the table [fat] in its FAT blocks, mounted. *)
Definition remount_with (fat : FAT) (fs : FileSystem) : FileSystem :=
  let img := unmount_partition fs in
  default fs_zero
    (mount_partition (λ _, 0) (mkImage (img_boot img) fat (img_blocks img))).

(** An image that holds the empty file [a.txt] and whose data blocks are
    all in use, except the last one. *)
Definition last_free_fat : FAT :=
  λ i, if decide (i < 130) then FAT_ENTRY_BAD
       else if decide (i = 65535) then FAT_ENTRY_FREE else FAT_ENTRY_EOF.

Definition fs_last_free : FileSystem := remount_with last_free_fat fs_created.

(** The same with the last two data blocks free. *)
Definition last_two_free_fat : FAT :=
  λ i, if decide (i < 130) then FAT_ENTRY_BAD
       else if decide (i < 65534) then FAT_ENTRY_EOF else FAT_ENTRY_FREE.

Definition fs_last_two_free : FileSystem :=
  remount_with last_two_free_fat fs_created.

(** A table in which the last chain is block 65532 followed by block
    65533, the data block whose index is the value [FAT_ENTRY_BAD]. *)
Definition bad_link_fat : FAT :=
  λ i, if decide (i < 130) then FAT_ENTRY_BAD
       else if decide (i = 65532) then 65533
       else if decide (i < 65534) then FAT_ENTRY_EOF else FAT_ENTRY_FREE.

(** [a.txt] with 1025 bytes, in blocks 130 and 131. *)
Definition xs1025 : list byte := replicate 1025 "x"%byte.

Definition fs_two_blocks : FileSystem :=
  from_option snd fs_created (write_file 2 "a.txt" xs1025 fs_created).

(** The image of [fs_hello] with block 131 linked after block 130: the
    chain of [a.txt] has two blocks, its five bytes need one. *)
Definition fs_long_chain : FileSystem :=
  remount_with (<[130 := 131]> (<[131 := FAT_ENTRY_EOF]> (fat_table fs_hello)))
               fs_hello.

(** The image of [fs_two_blocks] with the chain cut after block 130: the
    chain of [a.txt] has one block, its 1025 bytes need two. *)
Definition fs_short_chain : FileSystem :=
  remount_with (<[130 := FAT_ENTRY_EOF]> (fat_table fs_two_blocks))
               fs_two_blocks.

(** The image of [fs_hello] with every other data block in use. *)
Definition full_fat : FAT :=
  λ i, if decide (i < 130) then FAT_ENTRY_BAD else FAT_ENTRY_EOF.

Definition fs_full : FileSystem := remount_with full_fat fs_hello.

(** ... [write a.txt] with 1025 bytes, which need two blocks. *)
Definition fs_full_after : FileSystem :=
  from_option snd fs_full (write_file 3 "a.txt" xs1025 fs_full).

End Scenarios.

(** ** Further images *)

(** The entry of [a.txt] once [xs1025] is written to it at time 2. *)
Definition two_blocks_entry : DirectoryEntry :=
  mkDirectoryEntry "a.txt" 1025 130 TYPE_FILE 1 2 0.



Section MoreScenarios.
#[local] Existing Instance example_layout.

(** [fs_hello], then [create b.txt]. *)
Definition fs_b_created : FileSystem := (create_file 3 "b.txt" fs_hello).2.

(** ... [write b.txt] with 1025 bytes: [b.txt] is in blocks 131 and 132. *)
Definition fs_b_written : FileSystem :=
  from_option snd fs_b_created (write_file 4 "b.txt" xs1025 fs_b_created).



End MoreScenarios.

(** * Facts about the table *)

Lemma MAX_BLOCKS_eq : MAX_BLOCKS = 65536.
Proof. reflexivity. Qed.

Lemma stops_cases b : stops b ↔ b = 65534 ∨ b = 65535.
Proof. reflexivity. Qed.

Lemma fat_wf_insert fat i v :
  fat_wf fat → 0 ≤ v < MAX_BLOCKS → fat_wf (<[i := v]> fat).
Proof.
  intros Hwf Hv j Hj. destruct (decide (i = j)) as [->|Hne].
  - by rewrite fn_lookup_insert.
  - rewrite fn_lookup_insert_ne by done. by apply Hwf.
Qed.

Lemma free_loop_unfold fuel fat b :
  free_loop fuel fat b =
  if decide (b ≠ FAT_ENTRY_EOF ∧ b ≠ FAT_ENTRY_FREE) then
    match fuel with
    | O => None
    | S fuel' => free_loop fuel' (<[b := FAT_ENTRY_FREE]> fat) (fat b)
    end
  else Some fat.
Proof. by destruct fuel. Qed.

Lemma free_loop_stops fuel fat b :
  stops b → free_loop fuel fat b = Some fat.
Proof.
  intros Hb. rewrite free_loop_unfold. case_decide; [|done].
  unfold stops in Hb. tauto.
Qed.

Lemma free_loop_step fuel fat b :
  ¬ stops b →
  free_loop (S fuel) fat b
  = free_loop fuel (<[b := FAT_ENTRY_FREE]> fat) (fat b).
Proof.
  intros Hb. rewrite free_loop_unfold. case_decide; [done|].
  unfold stops in Hb. exfalso. apply Hb.
  destruct (decide (b = FAT_ENTRY_EOF)); [by left|].
  destruct (decide (b = FAT_ENTRY_FREE)); [by right|]. tauto.
Qed.

Lemma free_loop_out fat b : ¬ stops b → free_loop 0 fat b = None.
Proof.
  intros Hb. rewrite free_loop_unfold. case_decide; [done|].
  exfalso. apply Hb. unfold stops.
  destruct (decide (b = FAT_ENTRY_EOF)); [by left|].
  destruct (decide (b = FAT_ENTRY_FREE)); [by right|]. tauto.
Qed.

(** The loop follows a finite path, frees it and touches nothing else. *)
Lemma free_loop_path fuel fat b fat' :
  free_loop fuel fat b = Some fat' →
  ∃ l, free_path fat b l
       ∧ (∀ x, x ∈ l → fat' x = FAT_ENTRY_FREE)
       ∧ (∀ x, x ∉ l → fat' x = fat x).
Proof.
  revert fat b. induction fuel as [|fuel IH]; intros fat b Hrun;
    destruct (decide (stops b)) as [Hb|Hb];
    try (rewrite free_loop_stops in Hrun by done; injection Hrun as <-;
         exists []; split_and!;
         [by constructor | by intros x ?%elem_of_nil | done]).
  - by rewrite free_loop_out in Hrun.
  - rewrite free_loop_step in Hrun by done.
    destruct (IH _ _ Hrun) as (l & Hpath & Hin & Hout).
    exists (b :: l). split_and!.
    + by constructor.
    + intros x [->|Hx]%elem_of_cons; [|by apply Hin].
      destruct (decide (b ∈ l)) as [Hx|Hx]; [by apply Hin|].
      rewrite Hout by done. apply fn_lookup_insert.
    + intros x Hx. apply not_elem_of_cons in Hx as [Hne Hx].
      rewrite Hout by done. by rewrite fn_lookup_insert_ne.
Qed.

Lemma free_path_not_stops fat b l x :
  free_path fat b l → x ∈ l → ¬ stops x.
Proof.
  induction 1 as [|fat b l Hb _ IH]; [by intros ?%elem_of_nil|].
  intros [->|Hx]%elem_of_cons; [done | by apply IH].
Qed.

Lemma free_loop_keeps_free fuel fat b fat' x :
  free_loop fuel fat b = Some fat' →
  fat x = FAT_ENTRY_FREE → fat' x = FAT_ENTRY_FREE.
Proof.
  intros (l & _ & Hin & Hout)%free_loop_path Hx.
  destruct (decide (x ∈ l)); [by apply Hin | by rewrite Hout].
Qed.

Lemma free_loop_only_frees fuel fat b fat' x :
  free_loop fuel fat b = Some fat' →
  fat' x = FAT_ENTRY_FREE ∨ fat' x = fat x.
Proof.
  intros (l & _ & Hin & Hout)%free_loop_path.
  destruct (decide (x ∈ l)); [left; by apply Hin | right; by apply Hout].
Qed.

Lemma free_loop_head fuel fat b fat' :
  free_loop fuel fat b = Some fat' → ¬ stops b → fat' b = FAT_ENTRY_FREE.
Proof.
  intros Hrun Hb. destruct fuel as [|fuel].
  - by rewrite free_loop_out in Hrun.
  - rewrite free_loop_step in Hrun by done.
    eapply free_loop_keeps_free; [done|]. apply fn_lookup_insert.
Qed.

(** The cells at the two stopping values are never written. *)
Lemma free_loop_stops_untouched fuel fat b fat' x :
  free_loop fuel fat b = Some fat' → stops x → fat' x = fat x.
Proof.
  intros (l & Hpath & _ & Hout)%free_loop_path Hx.
  apply Hout. intros Hin. by eapply free_path_not_stops.
Qed.

(** ** Termination of [free_blocks]

    Every iteration either turns a used cell into a free one, or reads
    [FAT_ENTRY_FREE] as the next pointer and is the last one. *)

Lemma filter_free_le (fat : FAT) c (l : list Z) :
  (length (filter (λ i, <[c := FAT_ENTRY_FREE]> fat i ≠ FAT_ENTRY_FREE) l)
   ≤ length (filter (λ i, fat i ≠ FAT_ENTRY_FREE) l))%nat.
Proof.
  induction l as [|x l IH]; [done|].
  rewrite !filter_cons. destruct (decide (c = x)) as [->|Hne].
  - rewrite fn_lookup_insert. rewrite decide_False by (intros Hx; by apply Hx).
    case_decide; simpl; lia.
  - rewrite fn_lookup_insert_ne by done. case_decide; simpl; lia.
Qed.

Lemma filter_free_lt (fat : FAT) c (l : list Z) :
  c ∈ l → fat c ≠ FAT_ENTRY_FREE →
  (length (filter (λ i, <[c := FAT_ENTRY_FREE]> fat i ≠ FAT_ENTRY_FREE) l)
   < length (filter (λ i, fat i ≠ FAT_ENTRY_FREE) l))%nat.
Proof.
  intros Hin Hc. induction l as [|x l IH]; [by apply elem_of_nil in Hin|].
  rewrite !filter_cons. destruct (decide (c = x)) as [->|Hne].
  - rewrite fn_lookup_insert. rewrite decide_False by (intros Hx; by apply Hx).
    rewrite decide_True by done. simpl.
    pose proof (filter_free_le fat x l). lia.
  - apply elem_of_cons in Hin as [?|Hin]; [done|].
    rewrite fn_lookup_insert_ne by done. specialize (IH Hin).
    case_decide; simpl; lia.
Qed.

Lemma used_cells_free_lt n fat c :
  0 ≤ c < n → fat c ≠ FAT_ENTRY_FREE →
  (used_cells n (<[c := FAT_ENTRY_FREE]> fat) < used_cells n fat)%nat.
Proof.
  intros Hc Hused. apply filter_free_lt; [|done].
  apply elem_of_seqZ. lia.
Qed.

Lemma used_cells_bound n fat : (used_cells n fat ≤ Z.to_nat n)%nat.
Proof.
  unfold used_cells. etrans; [apply length_filter|]. by rewrite length_seqZ.
Qed.

Lemma free_loop_total fuel fat b :
  fat_wf fat → 0 ≤ b < MAX_BLOCKS →
  (used_cells MAX_BLOCKS fat + 2 ≤ fuel)%nat →
  is_Some (free_loop fuel fat b).
Proof.
  revert fat b. induction fuel as [|fuel IH]; intros fat b Hwf Hb Hfuel; [lia|].
  destruct (decide (stops b)) as [Hs|Hs].
  { rewrite free_loop_stops by done. by eexists. }
  rewrite free_loop_step by done.
  destruct (decide (fat b = FAT_ENTRY_FREE)) as [Hfree|Hused].
  - rewrite Hfree, free_loop_stops; [by eexists | by right].
  - apply IH.
    + apply fat_wf_insert; [done | by rewrite MAX_BLOCKS_eq].
    + by apply Hwf.
    + pose proof (used_cells_free_lt MAX_BLOCKS fat b Hb Hused). lia.
Qed.

Lemma free_fuel_enough fat : (used_cells MAX_BLOCKS fat + 2 ≤ free_fuel)%nat.
Proof.
  pose proof (used_cells_bound MAX_BLOCKS fat). unfold free_fuel.
  rewrite Z2Nat.inj_add by (rewrite ?MAX_BLOCKS_eq; lia).
  change (Z.to_nat 2) with 2%nat. lia.
Qed.

Lemma free_loop_fuel_total fat b :
  fat_wf fat → 0 ≤ b < MAX_BLOCKS → is_Some (free_loop free_fuel fat b).
Proof. intros. apply free_loop_total; [done..|apply free_fuel_enough]. Qed.

Lemma free_loop_wf fuel fat b fat' :
  fat_wf fat → free_loop fuel fat b = Some fat' → fat_wf fat'.
Proof.
  intros Hwf Hrun i Hi.
  destruct (free_loop_only_frees _ _ _ _ i Hrun) as [-> | ->];
    [by rewrite MAX_BLOCKS_eq | by apply Hwf].
Qed.

(** ** The chain of a file is freed whole *)

Lemma free_loop_follows fuel fat b fat' x :
  free_loop fuel fat b = Some fat' →
  fat x ≠ FAT_ENTRY_FREE → fat' x = FAT_ENTRY_FREE →
  ¬ stops (fat x) → fat' (fat x) = FAT_ENTRY_FREE.
Proof.
  revert fat b. induction fuel as [|fuel IH]; intros fat b Hrun Hused Hx Hnext.
  - destruct (decide (stops b)) as [Hs|Hs].
    + rewrite free_loop_stops in Hrun by done. congruence.
    + by rewrite free_loop_out in Hrun.
  - destruct (decide (stops b)) as [Hs|Hs].
    + rewrite free_loop_stops in Hrun by done. congruence.
    + rewrite free_loop_step in Hrun by done.
      destruct (decide (x = b)) as [->|Hne].
      * by eapply free_loop_head.
      * apply (IH _ _ Hrun) in Hx.
        -- by rewrite fn_lookup_insert_ne in Hx by done.
        -- by rewrite fn_lookup_insert_ne by done.
        -- by rewrite fn_lookup_insert_ne by done.
Qed.

Lemma free_loop_frees_chain fuel fat b fat' n x :
  free_loop fuel fat b = Some fat' →
  x ∈ chain n fat b → fat' x = FAT_ENTRY_FREE.
Proof.
  intros Hrun. assert (∀ n y, ¬ stops y → fat' y = FAT_ENTRY_FREE →
                        x ∈ chain n fat y → fat' x = FAT_ENTRY_FREE) as Hgen.
  { clear n. induction n as [|n IH]; intros y Hy Hfree; simpl;
      [by intros ?%elem_of_nil|].
    rewrite decide_False by done. intros [->|Hx]%elem_of_cons; [done|].
    destruct n as [|n]; [by apply elem_of_nil in Hx|].
    destruct (decide (stops (fat y))) as [Hs|Hs].
    { simpl in Hx. rewrite decide_True in Hx by done.
      by apply elem_of_nil in Hx. }
    apply (IH (fat y)); [done| |done].
    eapply free_loop_follows; [done| |done..].
    intros Heq. apply Hs. by right. }
  destruct n as [|n]; simpl; [by intros ?%elem_of_nil|].
  case_decide as Hs; [by intros ?%elem_of_nil|].
  intros Hx. apply (Hgen (S n) b); [done| by eapply free_loop_head |].
  simpl. by rewrite decide_False.
Qed.

(** * [free_blocks] *)

Lemma cells_u16_spec n i fat :
  cells_u16 n i fat = true →
  ∀ k, i ≤ k < i + Z.of_nat n → 0 ≤ fat k < MAX_BLOCKS.
Proof.
  revert i. induction n as [|n IH]; intros i; simpl; [lia|].
  intros [Hi Hrest]%andb_true_iff k Hk.
  destruct (decide (k = i)) as [->|]; [by eapply bool_decide_eq_true_1|].
  apply (IH _ Hrest). lia.
Qed.

Lemma fat_wf_checked (fat : FAT) :
  cells_u16 (Z.to_nat MAX_BLOCKS) 0 fat = true → fat_wf fat.
Proof.
  intros Hall i Hi. apply (cells_u16_spec _ _ _ Hall).
  rewrite MAX_BLOCKS_eq in *. lia.
Qed.

Lemma chain_not_stops n fat b x : x ∈ chain n fat b → ¬ stops x.
Proof.
  revert b. induction n as [|n IH]; intros b; simpl; [by intros ?%elem_of_nil|].
  case_decide; [by intros ?%elem_of_nil|].
  intros [->|Hx]%elem_of_cons; [done | by eapply IH].
Qed.

(** A chain that does not run into the value [FAT_ENTRY_FREE] is the same
    for [free_blocks] and for [read_file]. *)
Lemma chain_eof_chain n fat b :
  FAT_ENTRY_FREE ∉ eof_chain n fat b → chain n fat b = eof_chain n fat b.
Proof.
  revert b. induction n as [|n IH]; intros b; simpl; [done|].
  destruct (decide (b = FAT_ENTRY_EOF)) as [->|Hne].
  { by rewrite decide_True by (by left). }
  intros [Hb Hrest]%not_elem_of_cons.
  rewrite decide_False by (by intros [|]). f_equal. by apply IH.
Qed.

Section FreeBlocks.

(** C5, as the code has it.  For a table of 16-bit cells and a 16-bit
    [head], [free_blocks] returns; it visits a path that starts at [head]
    and ends at the first next pointer equal to [FAT_ENTRY_EOF] or
    [FAT_ENTRY_FREE]; the cell of every visited block is [FAT_ENTRY_FREE]
    afterwards and every other cell is unchanged; with [head =
    FAT_ENTRY_EOF] the table is returned as it was; the cells at the
    indices 0xFFFE and 0xFFFF are never written.  [FAT_ENTRY_BAD] is no
    stopping value: a next pointer equal to it is followed as block 65533,
    whose cell is freed like any other. *)
Theorem free_blocks_walk (fs : FileSystem) (head : Z) :
  fat_wf (fat_table fs) → 0 ≤ head < MAX_BLOCKS →
  ∃ fs' l,
    free_blocks fs head = Some fs'
    ∧ free_path (fat_table fs) head l
    ∧ (∀ x, x ∈ l → fat_table fs' x = FAT_ENTRY_FREE)
    ∧ (∀ x, x ∉ l → fat_table fs' x = fat_table fs x)
    ∧ (head = FAT_ENTRY_EOF → fat_table fs' = fat_table fs)
    ∧ fat_table fs' FAT_ENTRY_EOF = fat_table fs FAT_ENTRY_EOF
    ∧ fat_table fs' FAT_ENTRY_FREE = fat_table fs FAT_ENTRY_FREE
    ∧ (¬ stops head → fat_table fs head = FAT_ENTRY_BAD →
       fat_table fs' FAT_ENTRY_BAD = FAT_ENTRY_FREE).
Proof.
  intros Hwf Hhead. unfold free_blocks.
  destruct (free_loop_fuel_total _ _ Hwf Hhead) as [fat' Hrun].
  rewrite Hrun. simpl.
  destruct (free_loop_path _ _ _ _ Hrun) as (l & Hpath & Hin & Hout).
  eexists _, l. split; [done|]. simpl. split_and!; [done..| | | |].
  - intros ->. rewrite free_loop_stops in Hrun by (by left). congruence.
  - eapply free_loop_stops_untouched; [done | by left].
  - eapply free_loop_stops_untouched; [done | by right].
  - intros Hns Hbad. rewrite <- Hbad.
    eapply free_loop_follows; [done| | |].
    + by rewrite Hbad.
    + by eapply free_loop_head.
    + rewrite Hbad. by intros [|].
Qed.

End FreeBlocks.

Section FreeBlocksExamples.
#[local] Existing Instance example_layout.

Lemma fs_hello_fat_wf : fat_wf (fat_table fs_hello).
Proof.
  apply fat_wf_checked. pattern (fat_table fs_hello).
  vm_compute. reflexivity.
Qed.

Lemma free_blocks_walk_witness :
  ∃ fs' l,
    free_blocks fs_hello 130 = Some fs'
    ∧ free_path (fat_table fs_hello) 130 l
    ∧ (∀ x, x ∈ l → fat_table fs' x = FAT_ENTRY_FREE)
    ∧ (∀ x, x ∉ l → fat_table fs' x = fat_table fs_hello x)
    ∧ (130 = FAT_ENTRY_EOF → fat_table fs' = fat_table fs_hello)
    ∧ fat_table fs' FAT_ENTRY_EOF = fat_table fs_hello FAT_ENTRY_EOF
    ∧ fat_table fs' FAT_ENTRY_FREE = fat_table fs_hello FAT_ENTRY_FREE
    ∧ (¬ stops 130 → fat_table fs_hello 130 = FAT_ENTRY_BAD →
       fat_table fs' FAT_ENTRY_BAD = FAT_ENTRY_FREE).
Proof.
  apply (free_blocks_walk fs_hello 130).
  - exact fs_hello_fat_wf.
  - by vm_compute.
Defined.

(** C5 as stated fails: in [bad_link_fat] block 65532 is linked to block
    65533, so its next pointer is the value [FAT_ENTRY_BAD]; [free_blocks]
    follows it and writes the cell at index [FAT_ENTRY_BAD]. *)
Lemma free_blocks_follows_bad :
  bad_link_fat 65532 = FAT_ENTRY_BAD
  ∧ bad_link_fat FAT_ENTRY_BAD = FAT_ENTRY_EOF
  ∧ (fs' ← free_blocks (remount_with bad_link_fat fs_created) 65532;
     Some (fat_table fs' FAT_ENTRY_BAD))
    = Some FAT_ENTRY_FREE.
Proof. split_and!; by vm_compute. Qed.

End FreeBlocksExamples.

(** * The allocator *)

Lemma allocate_scan_Some n i fat j :
  allocate_scan n i fat = Some j →
  i ≤ j < i + Z.of_nat n ∧ fat j = FAT_ENTRY_FREE
  ∧ ∀ k, i ≤ k < j → fat k ≠ FAT_ENTRY_FREE.
Proof.
  revert i. induction n as [|n IH]; intros i; simpl; [done|].
  case_decide as Hi.
  - intros [= <-]. split_and!; [lia..|done|lia].
  - intros (Hj & Hfree & Hmin)%IH. split_and!; [lia..|done|].
    intros k Hk. destruct (decide (k = i)) as [->|]; [done|]. apply Hmin. lia.
Qed.

Lemma allocate_scan_None n i fat :
  allocate_scan n i fat = None →
  ∀ k, i ≤ k < i + Z.of_nat n → fat k ≠ FAT_ENTRY_FREE.
Proof.
  revert i. induction n as [|n IH]; intros i; simpl; [lia|].
  case_decide as Hi; [done|]. intros Hnone k Hk.
  destruct (decide (k = i)) as [->|]; [done|]. apply (IH _ Hnone). lia.
Qed.

Lemma allocate_scan_first n i fat j :
  i ≤ j < i + Z.of_nat n → fat j = FAT_ENTRY_FREE →
  (∀ k, i ≤ k < j → fat k ≠ FAT_ENTRY_FREE) →
  allocate_scan n i fat = Some j.
Proof.
  intros Hj Hfree Hmin.
  destruct (allocate_scan n i fat) as [j'|] eqn:Hscan.
  - apply allocate_scan_Some in Hscan as (Hj' & Hfree' & Hmin').
    f_equal. destruct (Z.lt_trichotomy j j') as [?|[?|?]]; [|done|].
    + exfalso. apply (Hmin' j); [lia|done].
    + exfalso. apply (Hmin j'); [lia|done].
  - exfalso. by apply (allocate_scan_None _ _ _ Hscan j).
Qed.

(** What [allocate_block] leaves alone. *)
Lemma allocate_block_frame fs :
  boot_sector (allocate_block fs).2 = boot_sector fs
  ∧ current_dir_block (allocate_block fs).2 = current_dir_block fs
  ∧ img_blocks (disk_file (allocate_block fs).2) = img_blocks (disk_file fs).
Proof. unfold allocate_block. by destruct allocate_scan. Qed.

(** First fit, for every index that is not the 16-bit value
    [FAT_ENTRY_FREE] itself. *)
Lemma allocate_block_first_fit fs i :
  formatted (boot_sector fs) →
  130 ≤ i < 65535 → fat_table fs i = FAT_ENTRY_FREE →
  (∀ k, 130 ≤ k < i → fat_table fs k ≠ FAT_ENTRY_FREE) →
  (allocate_block fs).1 = i
  ∧ fat_table (allocate_block fs).2 = <[i := FAT_ENTRY_EOF]> (fat_table fs).
Proof.
  intros (Htot & _ & _ & Hstart) Hi Hfree Hmin. unfold allocate_block.
  rewrite Htot, Hstart.
  rewrite (allocate_scan_first _ _ _ i); [|lia|done|done]. simpl.
  split; [|done]. unfold u16. apply Z.mod_small. lia.
Qed.


(** The three ways [allocate_block] can end on a formatted image. *)
Lemma allocate_block_cases fs :
  formatted (boot_sector fs) →
  (∃ i, 130 ≤ i < 65535 ∧ fat_table fs i = FAT_ENTRY_FREE
        ∧ (∀ k, 130 ≤ k < i → fat_table fs k ≠ FAT_ENTRY_FREE)
        ∧ (allocate_block fs).1 = i
        ∧ fat_table (allocate_block fs).2
          = <[i := FAT_ENTRY_EOF]> (fat_table fs))
  ∨ ((∀ k, 130 ≤ k < 65535 → fat_table fs k ≠ FAT_ENTRY_FREE)
     ∧ fat_table fs 65535 = FAT_ENTRY_FREE
     ∧ (allocate_block fs).1 = FAT_ENTRY_FREE
     ∧ fat_table (allocate_block fs).2
       = <[65535 := FAT_ENTRY_EOF]> (fat_table fs))
  ∨ ((∀ k, 130 ≤ k < 65536 → fat_table fs k ≠ FAT_ENTRY_FREE)
     ∧ allocate_block fs = (FAT_ENTRY_FREE, fs)).
Proof.
  intros Hfmt. pose proof Hfmt as (Htot & _ & _ & Hstart).
  unfold allocate_block. rewrite Htot, Hstart.
  destruct allocate_scan as [j|] eqn:Hscan.
  - apply allocate_scan_Some in Hscan as (Hj & Hfree & Hmin).
    destruct (decide (j = 65535)) as [->|Hne].
    + right; left. split_and!; [|done..]. intros k Hk. apply Hmin. lia.
    + left. exists j. split_and!; [lia..|done|done| |done].
      simpl. unfold u16. apply Z.mod_small. lia.
  - right; right. split; [|done]. intros k Hk.
    apply (allocate_scan_None _ _ _ Hscan). lia.
Qed.

Section AllocateExamples.
#[local] Existing Instance example_layout.

Lemma fs_last_free_formatted : formatted (boot_sector fs_last_free).
Proof. by vm_compute. Qed.

Lemma allocate_block_first_fit_witness :
  (allocate_block fs_hello).1 = 131
  ∧ fat_table (allocate_block fs_hello).2
    = <[131 := FAT_ENTRY_EOF]> (fat_table fs_hello).
Proof.
  apply (allocate_block_first_fit fs_hello 131).
  - by vm_compute.
  - lia.
  - reflexivity.
  - intros k Hk. assert (k = 130) as -> by lia. by vm_compute.
Defined.

(** C4 (code defect).  On a mounted image whose only free data block is the
    last one, index 65535, [allocate_block] writes [FAT_ENTRY_EOF] into the
    cell of that block and returns [(uint16_t)65535], which is
    [FAT_ENTRY_FREE], the value it returns when there is no free block.
    [write_file] takes the result for "No free space available", and the
    block stays marked as used. *)
Theorem allocate_last_block_returns_no_space :
  fat_table fs_last_free 65535 = FAT_ENTRY_FREE
  ∧ (allocate_block fs_last_free).1 = FAT_ENTRY_FREE
  ∧ fat_table (allocate_block fs_last_free).2 65535 = FAT_ENTRY_EOF
  ∧ (r ← write_file 2 "a.txt" hello fs_last_free;
     Some (r.1, fat_table r.2 65535))
    = Some (Fail OutOfSpace, FAT_ENTRY_EOF).
Proof. split_and!; vm_compute; reflexivity. Qed.

End AllocateExamples.

(** * Format and mount *)

Lemma format_boot_sector_formatted now : formatted (format_boot_sector now).
Proof. by vm_compute. Qed.


(** * Truncation *)

Section Truncate.
Context `{Layout}.

(** C6.  For a file entry, [truncate_file] with a size above [file_size]
    returns the error "New size larger than current size" and the state it
    was given; with a size equal to [file_size] it returns 0 and the state
    it was given. *)
Theorem truncate_file_grow_or_same (now : Z) (name : string) (new_size : Z)
    (fs : FileSystem) (e : DirectoryEntry) :
  stat fs name = Some e → type e = TYPE_FILE →
  (new_size > file_size e →
   truncate_file now name new_size fs = Some (Fail Grow, fs))
  ∧ (new_size = file_size e →
     truncate_file now name new_size fs = Some (OK, fs)).
Proof.
  unfold stat, truncate_file. intros Hstat Htype.
  destruct (read_dir fs (current_dir_block fs)) as [dir|]; [|done].
  simpl in Hstat.
  destruct (find_file_in_directory fs (current_dir_block fs) name)
    as [i|]; [|done].
  simpl in Hstat. injection Hstat as Hstat. rewrite Hstat.
  rewrite decide_False by (by intros []). split; intros Hsize.
  - by rewrite decide_True.
  - rewrite decide_False by lia. by rewrite decide_True.
Qed.

End Truncate.

Section TruncateExamples.
#[local] Existing Instance example_layout.

Lemma truncate_file_grow_or_same_witness :
  truncate_file 3 "a.txt" 9 fs_hello = Some (Fail Grow, fs_hello)
  ∧ truncate_file 3 "a.txt" 5 fs_hello = Some (OK, fs_hello).
Proof.
  split.
  - eapply (truncate_file_grow_or_same 3 "a.txt" 9 fs_hello);
      [vm_compute; reflexivity | reflexivity | reflexivity].
  - eapply (truncate_file_grow_or_same 3 "a.txt" 5 fs_hello);
      [vm_compute; reflexivity | reflexivity | reflexivity].
Defined.

(** C2 (code defect).  [format], [mount], [create a.txt],
    [write a.txt hello], [truncate a.txt 0]: the truncation returns 0 and
    leaves an entry with [file_size = 0] whose [first_block] is 130, not
    [FAT_ENTRY_EOF], so the entry breaks "file_size == 0 iff first_block ==
    EOF". *)
Theorem truncate_to_zero_breaks_entry_invariant :
  (r ← truncate_file 3 "a.txt" 0 fs_hello;
   e ← stat r.2 "a.txt";
   Some (r.1, file_size e, first_block e))
  = Some (OK, 0, 130)
  ∧ 130 ≠ FAT_ENTRY_EOF.
Proof. split; [vm_compute; reflexivity | done]. Qed.

(** C3 (code defect).  On the same run the only block of the chain, 130, is
    [FAT_ENTRY_FREE] after the truncation, but the entry's [first_block]
    still names it.  The next [write_file] on the entry then frees whatever
    owns block 130 by that time: after [create b.txt], [write b.txt hello]
    (which is given block 130) and [write a.txt hello], both entries name
    block 130. *)
Theorem truncate_to_zero_keeps_first_block :
  (r ← truncate_file 3 "a.txt" 0 fs_hello;
   e ← stat r.2 "a.txt";
   Some (r.1, fat_table r.2 130, first_block e))
  = Some (OK, FAT_ENTRY_FREE, 130)
  ∧ (r ← truncate_file 3 "a.txt" 0 fs_hello;
     let fs := (create_file 4 "b.txt" r.2).2 in
     r ← write_file 5 "b.txt" hello fs;
     r ← write_file 6 "a.txt" hello r.2;
     a ← stat r.2 "a.txt";
     b ← stat r.2 "b.txt";
     Some (first_block a, file_size a, first_block b, file_size b))
    = Some (130, 5, 130, 5).
Proof. split; vm_compute; reflexivity. Qed.

End TruncateExamples.

(** * Reading *)

Lemma blocks_for_zero : blocks_for 0 = 0.
Proof. reflexivity. Qed.

Lemma blocks_for_small r : 0 < r ≤ BLOCK_SIZE → blocks_for r = 1.
Proof.
  unfold blocks_for, BLOCK_SIZE. intros Hr.
  symmetry. apply Z.div_unique with (r := r - 1); lia.
Qed.

Lemma blocks_for_large r :
  BLOCK_SIZE < r → blocks_for r = blocks_for (r - BLOCK_SIZE) + 1.
Proof.
  unfold blocks_for, BLOCK_SIZE. intros Hr.
  replace (r + 1024 - 1) with ((r - 1024 + 1024 - 1) + 1 * 1024) by lia.
  by rewrite Z.div_add by lia.
Qed.

Lemma blocks_for_nonneg r : 0 ≤ r → 0 ≤ blocks_for r.
Proof.
  unfold blocks_for, BLOCK_SIZE. intros Hr. apply Z.div_pos; lia.
Qed.

Lemma eof_chain_eof n fat : eof_chain n fat FAT_ENTRY_EOF = [].
Proof. by destruct n. Qed.

Section Read.
Context `{Layout}.

Lemma read_loop_unfold fuel fs b r out :
  read_loop fuel fs b r out =
  if decide (b ≠ FAT_ENTRY_EOF ∧ r > 0) then
    match fuel with
    | O => None
    | S fuel' =>
        match read_block fs b with
        | None => Some (Fail IoError, out)
        | Some blk =>
            let n := if decide (r > BLOCK_SIZE) then BLOCK_SIZE else r in
            read_loop fuel' fs (fat_table fs b) (r - n)
                      (out ++ take (Z.to_nat n) (block_bytes blk))
        end
    end
  else Some (OK, out).
Proof. by destruct fuel. Qed.

Lemma blocks_bytes_cons fs b l :
  blocks_bytes fs (b :: l)
  = block_bytes (img_blocks (disk_file fs) b) ++ blocks_bytes fs l.
Proof. reflexivity. Qed.

(** The loop of [read_file] delivers the first [r] bytes of the chain, cut
    after the blocks that [r] bytes need; it never reports an error on
    readable blocks, whatever the length of the chain. *)
Lemma read_loop_chain fuel fs b r out :
  0 ≤ r → (Z.to_nat (blocks_for r) ≤ fuel)%nat →
  Forall (block_ok fs)
         (eof_chain (Z.to_nat (blocks_for r)) (fat_table fs) b) →
  read_loop fuel fs b r out
  = Some (OK,
          out ++ take (Z.to_nat r)
                   (blocks_bytes fs
                      (eof_chain (Z.to_nat (blocks_for r)) (fat_table fs) b))).
Proof.
  revert b r out. induction fuel as [|fuel IH]; intros b r out Hr Hfuel Hok.
  - rewrite read_loop_unfold.
    destruct (decide (r = 0)) as [->|Hpos].
    { rewrite decide_False by lia. by rewrite app_nil_r. }
    destruct (decide (r ≤ BLOCK_SIZE)).
    + rewrite blocks_for_small in Hfuel by lia. simpl in Hfuel. lia.
    + rewrite blocks_for_large in Hfuel by lia.
      pose proof (blocks_for_nonneg (r - BLOCK_SIZE)). lia.
  - rewrite read_loop_unfold. case_decide as Hgo.
    2:{ destruct (decide (b = FAT_ENTRY_EOF)) as [->|Hb].
        - rewrite eof_chain_eof. unfold blocks_bytes. simpl.
          by rewrite take_nil, app_nil_r.
        - assert (r = 0) as -> by (apply dec_stable; lia).
          by rewrite app_nil_r. }
    destruct Hgo as [Hb Hpos].
    destruct (decide (r > BLOCK_SIZE)) as [Hbig|Hsmall].
    + rewrite blocks_for_large in Hfuel, Hok |- * by lia.
      pose proof (blocks_for_nonneg (r - BLOCK_SIZE)) as Hn.
      rewrite Z2Nat.inj_add in Hfuel, Hok |- * by lia.
      rewrite Nat.add_1_r in Hfuel, Hok |- *. simpl in Hok |- *.
      rewrite decide_False in Hok |- * by done.
      apply Forall_cons in Hok as [[Hlt Hlen] Hok].
      unfold read_block. rewrite decide_False by lia.
      rewrite IH; [|lia..|done]. rewrite blocks_bytes_cons.
      rewrite take_ge by (rewrite Hlen; lia).
      rewrite <- app_assoc. do 3 f_equal.
      rewrite take_app_ge by (rewrite Hlen; unfold BLOCK_SIZE in *; lia).
      rewrite Hlen. do 2 f_equal. unfold BLOCK_SIZE in *. lia.
    + rewrite blocks_for_small in Hok |- * by lia. simpl in Hok |- *.
      rewrite decide_False in Hok |- * by done.
      apply Forall_cons in Hok as [[Hlt Hlen] _].
      unfold read_block. rewrite decide_False by lia.
      rewrite read_loop_unfold. rewrite decide_False by lia.
      rewrite blocks_bytes_cons. unfold blocks_bytes. simpl.
      rewrite app_nil_r. done.
Qed.

(** C7, as the code has it.  [read_file] on a file entry with readable
    blocks makes no check of the chain length and returns 0: it delivers the
    first [file_size] bytes of the chain from [first_block], cut after the
    [ceil(file_size / BLOCK_SIZE)] blocks that [file_size] bytes need.  A
    longer chain is read up to [file_size] bytes; a shorter one gives the
    bytes of the blocks it has. *)
Theorem read_file_ignores_chain_length (name : string) (fs : FileSystem)
    (e : DirectoryEntry) :
  stat fs name = Some e → type e = TYPE_FILE → 0 ≤ file_size e →
  Forall (block_ok fs)
         (eof_chain (Z.to_nat (blocks_for (file_size e))) (fat_table fs)
                    (first_block e)) →
  read_file name fs
  = Some (OK,
          take (Z.to_nat (file_size e))
               (blocks_bytes fs
                  (eof_chain (Z.to_nat (blocks_for (file_size e)))
                             (fat_table fs) (first_block e)))).
Proof.
  unfold stat, read_file. intros Hstat Htype Hsize Hok.
  destruct (read_dir fs (current_dir_block fs)) as [dir|]; [|done].
  simpl in Hstat.
  destruct (find_file_in_directory fs (current_dir_block fs) name)
    as [i|]; [|done].
  simpl in Hstat. injection Hstat as Hstat. rewrite Hstat.
  rewrite decide_False by (by intros []).
  case_decide as Hzero; [by rewrite Hzero|].
  by rewrite read_loop_chain.
Qed.

End Read.

Section ReadExamples.
#[local] Existing Instance example_layout.

Lemma read_file_ignores_chain_length_witness :
  read_file "a.txt" fs_hello
  = Some (OK, take 5 (blocks_bytes fs_hello [130])).
Proof.
  apply (read_file_ignores_chain_length "a.txt" fs_hello hello_entry);
    [by vm_compute | reflexivity | by vm_compute |].
  vm_compute. repeat constructor.
Defined.

(** C7 as stated fails: [read_file] returns 0 on a chain of two blocks
    for a file of five bytes, and on a chain of one block for a file of
    1025 bytes. *)
Lemma read_file_accepts_wrong_chain_length :
  (file_size <$> stat fs_long_chain "a.txt" = Some 5
   ∧ blocks_for 5 = 1
   ∧ eof_chain 3 (fat_table fs_long_chain) 130 = [130; 131]
   ∧ read_file "a.txt" fs_long_chain = Some (OK, hello))
  ∧ (file_size <$> stat fs_short_chain "a.txt" = Some 1025
     ∧ blocks_for 1025 = 2
     ∧ eof_chain 3 (fat_table fs_short_chain) 130 = [130]
     ∧ read_file "a.txt" fs_short_chain
       = Some (OK, replicate 1024 "x"%byte)).
Proof. split_and!; by vm_compute. Qed.

End ReadExamples.

(** * Deleting *)

Section Delete.
Context `{Layout}.

Lemma free_blocks_Some fs b fs' :
  free_blocks fs b = Some fs' →
  ∃ fat', free_loop free_fuel (fat_table fs) b = Some fat'
          ∧ fs' = flush_fat (set_fat_table fs fat').
Proof.
  unfold free_blocks. destruct free_loop as [fat'|]; [|done].
  intros [= <-]. by exists fat'.
Qed.

Lemma free_blocks_total fs b :
  fat_wf (fat_table fs) → 0 ≤ b < MAX_BLOCKS → is_Some (free_blocks fs b).
Proof.
  intros Hwf Hb. unfold free_blocks.
  destruct (free_loop_fuel_total _ _ Hwf Hb) as [fat' ->]. by eexists.
Qed.


Lemma find_file_in_directory_lt fs b dir name i :
  read_dir fs b = Some dir →
  find_file_in_directory fs b name = Some i →
  (i < length (entries dir))%nat.
Proof.
  unfold find_file_in_directory. intros ->. simpl.
  destruct list_find as [[j e]|] eqn:Hfind; [|done]. intros [= <-].
  apply list_find_Some in Hfind as (Hj & _).
  apply lookup_lt_Some in Hj. rewrite length_take in Hj. lia.
Qed.


End Delete.

Section DeleteExamples.
#[local] Existing Instance example_layout.


End DeleteExamples.

(** * Chains under construction *)


Lemma linked_frame fat fat' b l :
  (∀ x, x ∈ l → fat' x = fat x) → linked fat b l → linked fat' b l.
Proof.
  revert b. induction l as [|x l IH]; intros b Hsame; simpl; [done|].
  intros [-> Hl]. split; [done|].
  rewrite Hsame by apply list_elem_of_here.
  apply IH; [|done]. intros y Hy. apply Hsame. by apply list_elem_of_further.
Qed.

Lemma linked_first fat b l :
  linked fat b l → b = default FAT_ENTRY_EOF (head l).
Proof. destruct l; simpl; [done | by intros [-> _]]. Qed.

Lemma linked_last fat b l x :
  linked fat b l → last l = Some x → fat x = FAT_ENTRY_EOF.
Proof.
  revert b. induction l as [|y l IH]; intros b; simpl; [done|].
  intros [-> Hl]. destruct l as [|z l].
  - intros [= <-]. exact Hl.
  - intros Hlast. by eapply IH.
Qed.

(** A cell on a chain of blocks below 0xFFFE is in use. *)
Lemma linked_used fat b l x :
  linked fat b l → (∀ y, y ∈ l → 130 ≤ y < 65534) → x ∈ l →
  fat x ≠ FAT_ENTRY_FREE.
Proof.
  revert b. induction l as [|y l IH]; intros b Hl Hrange Hx;
    [by apply elem_of_nil in Hx|].
  destruct Hl as [-> Hl]. apply elem_of_cons in Hx as [->|Hx].
  - destruct l as [|z l]; simpl in Hl.
    + by rewrite Hl.
    + destruct Hl as [-> _].
      assert (130 ≤ z < 65534) by (apply Hrange; in_list).
      unfold FAT_ENTRY_FREE. lia.
  - eapply IH; [done| |done]. intros z Hz. apply Hrange. in_list.
Qed.

Lemma linked_snoc fat b l i :
  linked fat b l → NoDup l → i ∉ l → l ≠ [] →
  linked (<[default FAT_ENTRY_EOF (last l) := i]>
            (<[i := FAT_ENTRY_EOF]> fat))
         b (l ++ [i]).
Proof.
  revert b. induction l as [|x l IH]; intros b Hl Hnd Hi Hne; [done|].
  destruct Hl as [-> Hl]. apply NoDup_cons in Hnd as [Hx Hnd].
  apply not_elem_of_cons in Hi as [Hix Hi].
  destruct l as [|y l].
  - simpl in *. split; [done|]. rewrite fn_lookup_insert. split; [done|].
    rewrite fn_lookup_insert_ne by done. apply fn_lookup_insert.
  - split; [done|].
    assert (∃ z, last (x :: y :: l) = Some z ∧ z ∈ y :: l) as (z & Hz & Hzin).
    { change (last (x :: y :: l)) with (last (y :: l)).
      destruct (last (y :: l)) as [z|] eqn:Hz.
      - exists z. split; [done|]. by apply last_Some_elem_of.
      - by apply last_None in Hz. }
    rewrite Hz. simpl.
    rewrite fn_lookup_insert_ne by (intros ->; done).
    rewrite fn_lookup_insert_ne by done.
    specialize (IH (fat x) Hl Hnd Hi ltac:(done)).
    change (last (x :: y :: l)) with (last (y :: l)) in Hz.
    by rewrite Hz in IH.
Qed.

Lemma linked_chain fat b l n :
  linked fat b l → (∀ x, x ∈ l → 130 ≤ x < 65534) →
  (length l ≤ n)%nat → chain n fat b = l.
Proof.
  revert b n. induction l as [|x l IH]; intros b n Hl Hrange Hn.
  - simpl in Hl. subst b. by destruct n.
  - destruct Hl as [-> Hl]. destruct n as [|n]; [simpl in Hn; lia|]. simpl.
    assert (130 ≤ x < 65534) by (apply Hrange; in_list).
    rewrite decide_False
      by (unfold stops, FAT_ENTRY_EOF, FAT_ENTRY_FREE; lia).
    f_equal. apply IH; [done| |simpl in Hn; lia].
    intros y Hy. apply Hrange. in_list.
Qed.

Lemma linked_eof_chain fat b l n :
  linked fat b l → (∀ x, x ∈ l → 130 ≤ x < 65534) →
  (length l ≤ n)%nat → eof_chain n fat b = l.
Proof.
  revert b n. induction l as [|x l IH]; intros b n Hl Hrange Hn.
  - simpl in Hl. subst b. apply eof_chain_eof.
  - destruct Hl as [-> Hl]. destruct n as [|n]; [simpl in Hn; lia|]. simpl.
    assert (130 ≤ x < 65534) by (apply Hrange; in_list).
    rewrite decide_False by (unfold FAT_ENTRY_EOF; lia).
    f_equal. apply IH; [done| |simpl in Hn; lia].
    intros y Hy. apply Hrange. in_list.
Qed.

(** * The loop of [write_file] *)

Lemma write_loop_unfold fuel fs d r first prev :
  write_loop fuel fs d r first prev =
  if decide (r > 0) then
    match fuel with
    | O => None
    | S fuel' =>
        let '(new_block, fs) := allocate_block fs in
        if decide (new_block = FAT_ENTRY_FREE) then
          fs ← (if decide (first ≠ FAT_ENTRY_EOF)
                then free_blocks fs first else Some fs);
          Some (WriteFail OutOfSpace fs)
        else
          let first :=
            if decide (first = FAT_ENTRY_EOF) then new_block else first in
          let fs :=
            if decide (prev ≠ FAT_ENTRY_EOF)
            then set_fat_table fs (<[prev := new_block]> (fat_table fs))
            else fs in
          let m := if decide (r > BLOCK_SIZE) then BLOCK_SIZE else r in
          let block_data :=
            take (Z.to_nat m) d ++ replicate (Z.to_nat (BLOCK_SIZE - m)) x00 in
          match write_block fs new_block (DataBlock block_data) with
          | None => fs ← free_blocks fs first; Some (WriteFail IoError fs)
          | Some fs =>
              write_loop fuel' fs (drop (Z.to_nat m) d) (r - m) first new_block
          end
    end
  else Some (WriteDone fs first prev).
Proof. by destruct fuel. Qed.

Lemma write_block_Some fs b blk fs' :
  write_block fs b blk = Some fs' →
  boot_sector fs' = boot_sector fs
  ∧ current_dir_block fs' = current_dir_block fs
  ∧ fat_table fs' = fat_table fs
  ∧ img_blocks (disk_file fs') = <[b := blk]> (img_blocks (disk_file fs)).
Proof. unfold write_block. case_decide; [done|]. by intros [= <-]. Qed.

Lemma write_block_in_range fs b blk :
  b < total_blocks (boot_sector fs) → is_Some (write_block fs b blk).
Proof. intros Hb. unfold write_block. rewrite decide_False by lia. by eexists. Qed.

Lemma write_inv_chain_inv fs0 fs first prev A W :
  write_inv fs0 fs first prev A W → chain_inv fs0 fs first A.
Proof.
  intros [Hb Hc Hr Hnd Hl Hp Hf Hd Hk]. split; [done..| |].
  - intros x Hx _. by apply Hf.
  - intros x Hx. apply Hk. intros Hin%Hr. lia.
Qed.

Lemma write_inv_init fs : write_inv fs fs FAT_ENTRY_EOF FAT_ENTRY_EOF [] [].
Proof.
  split; [done | done | by intros x ?%elem_of_nil | constructor | done
         | done | done | constructor | done].
Qed.

Lemma range_not_stops x : 130 ≤ x < 65534 → ¬ stops x.
Proof. unfold stops, FAT_ENTRY_EOF, FAT_ENTRY_FREE. lia. Qed.

(** A failed allocation: the partial chain is freed, and every cell that was
    free when the loop was entered is free again, the cells at the two
    stopping values apart. *)
Lemma alloc_fail_undo fs0 fs fs1 first A fs' :
  chain_inv fs0 fs first A →
  boot_sector fs1 = boot_sector fs →
  current_dir_block fs1 = current_dir_block fs →
  img_blocks (disk_file fs1) = img_blocks (disk_file fs) →
  (∀ x, ¬ stops x → fat_table fs1 x = fat_table fs x) →
  (if decide (first ≠ FAT_ENTRY_EOF) then free_blocks fs1 first
   else Some fs1) = Some fs' →
  boot_sector fs' = boot_sector fs0
  ∧ current_dir_block fs' = current_dir_block fs0
  ∧ (∀ x, ¬ stops x → fat_table fs0 x = FAT_ENTRY_FREE →
          fat_table fs' x = FAT_ENTRY_FREE)
  ∧ (∀ x, x < 130 →
          img_blocks (disk_file fs') x = img_blocks (disk_file fs0) x).
Proof.
  intros [Hboot Hcur Hrange Hlinked Hfat Hdisk] Hboot1 Hcur1 Hdisk1 Hfat1 Hres.
  assert (linked (fat_table fs1) first A) as Hlinked1.
  { eapply linked_frame; [|done]. intros x Hx.
    apply Hfat1, range_not_stops. by apply Hrange. }
  case_decide as Hfirst.
  - apply free_blocks_Some in Hres as (fat' & Hrun & ->). simpl.
    split_and!; [congruence..| |].
    + intros x Hx Hfree. destruct (decide (x ∈ A)) as [Hin|Hout].
      * eapply (free_loop_frees_chain _ _ _ _ (length A)); [done|].
        by rewrite (linked_chain _ _ A).
      * eapply free_loop_keeps_free; [done|].
        by rewrite Hfat1, Hfat.
    + intros x Hx. rewrite Hdisk1. by apply Hdisk.
  - injection Hres as <-. split_and!; [congruence..| |].
    + intros x Hx Hfree.
      destruct A as [|y A].
      * rewrite Hfat1, Hfat; [done| |done..]. by intros ?%elem_of_nil.
      * destruct Hlinked as [-> _].
        assert (130 ≤ y < 65534) by (apply Hrange; in_list).
        unfold FAT_ENTRY_EOF in Hfirst. lia.
    + intros x Hx. rewrite Hdisk1. by apply Hdisk.
Qed.

Lemma data_frame (bl bl' : Z → Block) A W :
  Forall2 (λ x c, bl x = DataBlock c) A W →
  (∀ x, x ∈ A → bl' x = bl x) →
  Forall2 (λ x c, bl' x = DataBlock c) A W.
Proof.
  induction 1 as [|x c A W Hx _ IH]; intros Hsame; constructor.
  - rewrite Hsame by in_list. done.
  - apply IH. intros y Hy. apply Hsame. in_list.
Qed.

(** One more block, below the index 0xFFFE, allocated, linked and written. *)
Lemma write_inv_step fs0 fs fs1 fs3 first prev A W i c :
  write_inv fs0 fs first prev A W →
  130 ≤ i < 65534 → fat_table fs i = FAT_ENTRY_FREE →
  boot_sector fs1 = boot_sector fs →
  current_dir_block fs1 = current_dir_block fs →
  img_blocks (disk_file fs1) = img_blocks (disk_file fs) →
  fat_table fs1 = <[i := FAT_ENTRY_EOF]> (fat_table fs) →
  write_block (if decide (prev ≠ FAT_ENTRY_EOF)
               then set_fat_table fs1 (<[prev := i]> (fat_table fs1))
               else fs1) i (DataBlock c) = Some fs3 →
  write_inv fs0 fs3 (if decide (first = FAT_ENTRY_EOF) then i else first) i
            (A ++ [i]) (W ++ [c]).
Proof.
  intros [Hb Hc Hr Hnd Hl Hp Hf Hd Hk] Hi Hfree Hb1 Hc1 Hk1 Hf1 Hwrite.
  assert (i ∉ A) as HiA.
  { intros Hin. by eapply linked_used. }
  apply write_block_Some in Hwrite as (Hb3 & Hc3 & Hf3 & Hk3).
  destruct A as [|a A].
  - (* the first block of the chain *)
    simpl in Hp, Hl. subst prev first.
    rewrite decide_False in Hb3, Hc3, Hf3, Hk3 by (by intros []).
    rewrite decide_True by done.
    apply Forall2_nil_inv_l in Hd as ->.
    split; simpl.
    + congruence.
    + congruence.
    + intros x ->%list_elem_of_singleton. done.
    + apply NoDup_singleton.
    + split; [done|]. rewrite Hf3, Hf1. apply fn_lookup_insert.
    + done.
    + intros x Hx%not_elem_of_cons. destruct Hx as [Hx _].
      rewrite Hf3, Hf1, fn_lookup_insert_ne by congruence. apply Hf, not_elem_of_nil.
    + constructor; [|constructor]. rewrite Hk3. apply fn_lookup_insert.
    + intros x Hx%not_elem_of_cons. destruct Hx as [Hx _].
      rewrite Hk3, fn_lookup_insert_ne, Hk1 by congruence. apply Hk, not_elem_of_nil.
  - (* a further block *)
    destruct (last (a :: A)) as [z|] eqn:Hlast;
      [|by apply last_None in Hlast].
    simpl in Hp. subst prev.
    pose proof (last_Some_elem_of _ _ Hlast) as Hz.
    pose proof (Hr z Hz) as Hzr.
    pose proof Hl as [Hfirst _]. subst first.
    pose proof (Hr a ltac:(in_list)) as Har.
    rewrite decide_True in Hb3, Hc3, Hf3, Hk3
      by (unfold FAT_ENTRY_EOF; lia).
    rewrite decide_False by (unfold FAT_ENTRY_EOF; lia).
    simpl in Hb3, Hc3, Hf3, Hk3.
    split.
    + congruence.
    + congruence.
    + intros x [Hx| ->%list_elem_of_singleton]%elem_of_app; [by apply Hr|done].
    + apply NoDup_app. split_and!; [done| |apply NoDup_singleton].
      intros x Hx ->%list_elem_of_singleton. done.
    + rewrite Hf3, Hf1.
      pose proof (linked_snoc _ _ _ i Hl Hnd HiA ltac:(done)) as Hnew.
      by rewrite Hlast in Hnew.
    + by rewrite last_snoc.
    + intros x [HxA Hxi%not_elem_of_cons]%not_elem_of_app.
      destruct Hxi as [Hxi _].
      rewrite Hf3, fn_lookup_insert_ne by (intros ->; done).
      rewrite Hf1, fn_lookup_insert_ne by congruence. by apply Hf.
    + apply Forall2_app.
      * eapply data_frame; [done|]. intros x Hx.
        rewrite Hk3, fn_lookup_insert_ne, Hk1 by (intros ->; done). done.
      * constructor; [|constructor]. rewrite Hk3. apply fn_lookup_insert.
    + intros x [HxA Hxi%not_elem_of_cons]%not_elem_of_app.
      destruct Hxi as [Hxi _].
      rewrite Hk3, fn_lookup_insert_ne, Hk1 by congruence. by apply Hk.
Qed.

(** The two ways [allocate_block] returns on a formatted image: a free
    index below 0xFFFF, the smallest one; or the value [FAT_ENTRY_FREE], when
    no index below 0xFFFF is free. *)
Lemma allocate_block_inv fs new fs1 :
  formatted (boot_sector fs) → allocate_block fs = (new, fs1) →
  boot_sector fs1 = boot_sector fs
  ∧ current_dir_block fs1 = current_dir_block fs
  ∧ img_blocks (disk_file fs1) = img_blocks (disk_file fs)
  ∧ ((130 ≤ new < 65535 ∧ fat_table fs new = FAT_ENTRY_FREE
      ∧ (∀ k, 130 ≤ k < new → fat_table fs k ≠ FAT_ENTRY_FREE)
      ∧ fat_table fs1 = <[new := FAT_ENTRY_EOF]> (fat_table fs))
     ∨ (new = FAT_ENTRY_FREE
        ∧ (∀ k, 130 ≤ k < 65535 → fat_table fs k ≠ FAT_ENTRY_FREE)
        ∧ (∀ x, ¬ stops x → fat_table fs1 x = fat_table fs x))).
Proof.
  intros Hfmt Halloc.
  pose proof (allocate_block_frame fs) as (Hb & Hc & Hk).
  pose proof (allocate_block_cases fs Hfmt) as Hcases.
  rewrite Halloc in Hb, Hc, Hk, Hcases. simpl in *.
  split_and!; [done..|].
  destruct Hcases as [(i & Hi & Hfree & Hmin & -> & Hfat)
                     |[(Hfull & _ & -> & Hfat)|(Hfull & [= -> ->])]].
  - left. split_and!; try done; lia.
  - right. split_and!; [done..|]. intros x Hx. rewrite Hfat.
    apply fn_lookup_insert_ne. intros <-. apply Hx. by right.
  - right. split_and!; [done| |done]. intros k Hk'. apply Hfull. lia.
Qed.

(** After block 0xFFFE has been handed out no index below 0xFFFF is free:
    the next allocation fails. *)
Lemma write_loop_orphan fuel fs0 fs d r first A e fs' :
  formatted (boot_sector fs0) → chain_inv fs0 fs first A →
  (∀ k, 130 ≤ k < 65535 → fat_table fs k ≠ FAT_ENTRY_FREE) →
  write_loop fuel fs d r first FAT_ENTRY_EOF = Some (WriteFail e fs') →
  e = OutOfSpace
  ∧ boot_sector fs' = boot_sector fs0
  ∧ current_dir_block fs' = current_dir_block fs0
  ∧ (∀ x, ¬ stops x → fat_table fs0 x = FAT_ENTRY_FREE →
          fat_table fs' x = FAT_ENTRY_FREE)
  ∧ (∀ x, x < 130 →
          img_blocks (disk_file fs') x = img_blocks (disk_file fs0) x).
Proof.
  intros Hfmt Hinv Hfull. rewrite write_loop_unfold.
  case_decide; [|done]. destruct fuel as [|fuel]; [done|].
  assert (formatted (boot_sector fs)) as Hfmt'
    by (by rewrite (ci_boot _ _ _ _ Hinv)).
  destruct (allocate_block fs) as [new fs1] eqn:Halloc.
  apply (allocate_block_inv _ _ _ Hfmt') in Halloc
      as (Hb1 & Hc1 & Hk1 & [(Hnew & Hfree & _)|(-> & _ & Hf1)]).
  { by destruct (Hfull new Hnew). }
  rewrite decide_True by done.
  destruct (if decide (first ≠ FAT_ENTRY_EOF) then free_blocks fs1 first
            else Some fs1) as [fs2|] eqn:Hundo; [|done].
  simpl. intros [= <- <-]. split; [done|]. by eapply alloc_fail_undo.
Qed.

(** A loop that ends with an error ends with "No free space available", and
    has given back every block it took below the index 0xFFFE. *)
Lemma write_loop_fail fuel fs0 fs d r first prev A W e fs' :
  formatted (boot_sector fs0) → write_inv fs0 fs first prev A W →
  write_loop fuel fs d r first prev = Some (WriteFail e fs') →
  e = OutOfSpace
  ∧ boot_sector fs' = boot_sector fs0
  ∧ current_dir_block fs' = current_dir_block fs0
  ∧ (∀ x, ¬ stops x → fat_table fs0 x = FAT_ENTRY_FREE →
          fat_table fs' x = FAT_ENTRY_FREE)
  ∧ (∀ x, x < 130 →
          img_blocks (disk_file fs') x = img_blocks (disk_file fs0) x).
Proof.
  intros Hfmt. revert fs d r first prev A W.
  induction fuel as [|fuel IH]; intros fs d r first prev A W Hinv;
    rewrite write_loop_unfold; (case_decide; [|done]); [done|].
  assert (formatted (boot_sector fs)) as Hfmt'
    by (by rewrite (wi_boot _ _ _ _ _ _ Hinv)).
  destruct (allocate_block fs) as [new fs1] eqn:Halloc.
  apply (allocate_block_inv _ _ _ Hfmt') in Halloc
      as (Hb1 & Hc1 & Hk1 & [(Hnew & Hfree & Hmin & Hf1)|(-> & _ & Hf1)]).
  2:{ rewrite decide_True by done.
      destruct (if decide (first ≠ FAT_ENTRY_EOF) then free_blocks fs1 first
                else Some fs1) as [fs2|] eqn:Hundo; [|done].
      simpl. intros [= <- <-]. split; [done|].
      eapply alloc_fail_undo; [by eapply write_inv_chain_inv|done..]. }
  rewrite decide_False by (unfold FAT_ENTRY_FREE; lia). cbv zeta.
  set (fs2 := if decide (prev ≠ FAT_ENTRY_EOF)
              then set_fat_table fs1 (<[prev := new]> (fat_table fs1))
              else fs1).
  assert (boot_sector fs2 = boot_sector fs1) as Hb2
    by (unfold fs2; by case_decide).
  match goal with |- context [write_block _ _ ?b] => set (blk := b) end.
  destruct (write_block fs2 new blk) as [fs3|] eqn:Hwrite.
  2:{ destruct (write_block_in_range fs2 new blk) as [? Hsome];
        [|congruence].
      rewrite Hb2, Hb1. destruct Hfmt' as [-> _]. lia. }
  destruct (decide (new = 65534)) as [->|Hne].
  - (* the block whose index is the value FAT_ENTRY_EOF *)
    replace (if decide (first = FAT_ENTRY_EOF) then 65534 else first)
      with first by (by case_decide; subst).
    apply write_loop_orphan with (A := A); [done| |].
    + apply write_block_Some in Hwrite as (Hb3 & Hc3 & Hf3 & Hk3).
      destruct Hinv as [Hb Hc Hr Hnd Hl Hp Hf Hd Hk].
      assert (∀ x, x ≠ 65534 → (x = prev → fat_table fs prev = 65534) →
                   fat_table fs3 x = fat_table fs x) as Hsame.
      { intros x Hx Hprev. rewrite Hf3. unfold fs2. case_decide; simpl.
        - rewrite Hf1. destruct (decide (x = prev)) as [->|].
          + rewrite fn_lookup_insert. symmetry. by apply Hprev.
          + by rewrite !fn_lookup_insert_ne by congruence.
        - rewrite Hf1. by rewrite fn_lookup_insert_ne by congruence. }
      assert (prev = FAT_ENTRY_EOF ∨ prev ∈ A) as Hprev.
      { rewrite Hp. destruct (last A) as [z|] eqn:Hz; [|by left].
        right. by apply last_Some_elem_of. }
      split.
      * congruence.
      * rewrite Hc3. unfold fs2. case_decide; simpl; congruence.
      * done.
      * eapply linked_frame; [|done]. intros x Hx.
        pose proof (Hr x Hx). apply Hsame; [lia|]. intros ->.
        destruct (last A) as [z|] eqn:Hz; simpl in Hp;
          [|unfold FAT_ENTRY_EOF in Hp; lia].
        subst z. by eapply linked_last.
      * intros x Hx Hns. rewrite <- Hf by done. apply Hsame.
        -- intros ->. apply Hns. by left.
        -- intros ->. destruct Hprev as [->|?]; [|done].
           exfalso. apply Hns. by left.
      * intros x Hx. rewrite Hk3, fn_lookup_insert_ne by lia.
        unfold fs2. case_decide; simpl; rewrite Hk1; apply Hk;
          intros Hin%Hr; lia.
    + apply write_block_Some in Hwrite as (_ & _ & Hf3 & _).
      destruct Hinv as [Hb Hc Hr Hnd Hl Hp Hf Hd Hk].
      intros k Hk'. rewrite Hf3.
      assert (<[65534 := FAT_ENTRY_EOF]> (fat_table fs) k ≠ FAT_ENTRY_FREE)
        as Hk1'.
      { destruct (decide (k = 65534)) as [->|].
        - by rewrite fn_lookup_insert.
        - rewrite fn_lookup_insert_ne by congruence. apply Hmin. lia. }
      unfold fs2. case_decide; simpl; rewrite Hf1; [|done].
      destruct (decide (k = prev)) as [->|].
      * by rewrite fn_lookup_insert.
      * by rewrite fn_lookup_insert_ne by congruence.
  - intros Hrun. eapply IH; [|exact Hrun].
    eapply write_inv_step; [done|lia|done..].
Qed.

(** * [write_file] *)

Lemma run_result {A} (o : option (Status * A)) (st : Status) (d : A) :
  fst <$> o = Some st → o = Some (st, from_option snd d o).
Proof. destruct o as [[]|]; simpl; congruence. Qed.

Section WriteFile.
Context `{Layout}.

Lemma stat_frame fs fs' name :
  boot_sector fs' = boot_sector fs →
  current_dir_block fs' = current_dir_block fs →
  img_blocks (disk_file fs') (current_dir_block fs)
  = img_blocks (disk_file fs) (current_dir_block fs) →
  stat fs' name = stat fs name.
Proof.
  intros Hb Hc Hk.
  unfold stat, find_file_in_directory, read_dir, read_block.
  by rewrite Hb, Hc, Hk.
Qed.

Lemma stat_Some fs name e :
  stat fs name = Some e →
  ∃ dir i, read_dir fs (current_dir_block fs) = Some dir
           ∧ find_file_in_directory fs (current_dir_block fs) name = Some i
           ∧ e = entries dir !!! i.
Proof.
  unfold stat. destruct read_dir as [dir|]; [|done]. simpl.
  destruct find_file_in_directory as [i|]; [|done]. simpl.
  intros [= <-]. by exists dir, i.
Qed.

(** C10.  On a mounted formatted image, when [write_file] on an entry that
    owns blocks ([first_block] is not [FAT_ENTRY_EOF]) ends with "No free
    space available", the directory block is as before the call, so the
    entry still has its old [first_block] and [file_size], and every block
    of the chain it names is [FAT_ENTRY_FREE] in the table: the old chain
    was freed before the first allocation, and the blocks allocated since
    were given back. *)
Theorem write_file_out_of_space_keeps_entry (now : Z) (name : string)
    (data : list byte) (fs fs' : FileSystem) (e : DirectoryEntry) :
  formatted (boot_sector fs) → current_dir_block fs = 129 →
  stat fs name = Some e → first_block e ≠ FAT_ENTRY_EOF →
  write_file now name data fs = Some (Fail OutOfSpace, fs') →
  stat fs' name = Some e
  ∧ img_blocks (disk_file fs') (current_dir_block fs')
    = img_blocks (disk_file fs) (current_dir_block fs)
  ∧ (∀ n x, x ∈ chain n (fat_table fs) (first_block e) →
            fat_table fs' x = FAT_ENTRY_FREE).
Proof.
  intros Hfmt Hcur Hstat Hfirst.
  destruct (stat_Some _ _ _ Hstat) as (dir & i & Hdir & Hfind & He).
  unfold write_file. rewrite Hdir, Hfind, <- He.
  case_decide; [done|]. case_decide; [done|].
  rewrite decide_True by done.
  destruct (free_blocks fs (first_block e)) as [fs1|] eqn:Hfree; [|done].
  simpl. apply free_blocks_Some in Hfree as (fat1 & Hrun & ->).
  destruct write_loop as [[fs2 first prev|err fs2]|] eqn:Hloop; [|simpl|done].
  { simpl. by destruct write_block. }
  intros [= -> ->].
  pose proof (write_loop_fail _ (flush_fat (set_fat_table fs fat1))
                _ _ _ _ _ _ _ _ _ Hfmt (write_inv_init _) Hloop)
    as (_ & Hb & Hc & Hfat & Hk).
  simpl in Hb, Hc, Hfat, Hk.
  assert (img_blocks (disk_file fs') (current_dir_block fs)
          = img_blocks (disk_file fs) (current_dir_block fs)) as Hsame
    by (apply Hk; lia).
  split_and!.
  - rewrite <- Hstat. by apply stat_frame.
  - by rewrite Hc.
  - intros n x Hx. apply Hfat.
    + by eapply chain_not_stops.
    + by eapply free_loop_frees_chain.
Qed.

End WriteFile.

Section WriteFileExamples.
#[local] Existing Instance example_layout.

Lemma write_file_out_of_space_keeps_entry_witness :
  stat fs_full_after "a.txt" = Some hello_entry
  ∧ img_blocks (disk_file fs_full_after) (current_dir_block fs_full_after)
    = img_blocks (disk_file fs_full) (current_dir_block fs_full)
  ∧ (∀ n x, x ∈ chain n (fat_table fs_full) (first_block hello_entry) →
            fat_table fs_full_after x = FAT_ENTRY_FREE).
Proof.
  apply (write_file_out_of_space_keeps_entry 3 "a.txt" xs1025 fs_full).
  - by vm_compute.
  - reflexivity.
  - by vm_compute.
  - done.
  - apply run_result. by vm_compute.
Defined.

End WriteFileExamples.

(** * Writing, then reading *)

Lemma blocks_for_pos r : 0 < r → 0 < blocks_for r.
Proof.
  intros Hr. destruct (decide (r ≤ BLOCK_SIZE)).
  - rewrite blocks_for_small by lia. lia.
  - rewrite blocks_for_large by lia.
    pose proof (blocks_for_nonneg (r - BLOCK_SIZE)). lia.
Qed.









Lemma u32_small x : 0 ≤ x < 2 ^ 32 → u32 x = x.
Proof. intros Hx. unfold u32. by apply Z.mod_small. Qed.

Section RoundTrip.
Context `{Layout}.



(** Rewriting the slot that [find_file_in_directory] found, without a change
    of its name, does not change what it finds. *)
Lemma find_file_in_directory_rewritten fs fs' b dir name i e' :
  read_dir fs b = Some dir →
  find_file_in_directory fs b name = Some i →
  read_dir fs' b = Some (set_entry dir i e') →
  filename e' = filename (entries dir !!! i) →
  find_file_in_directory fs' b name = Some i.
Proof.
  unfold find_file_in_directory. intros -> Hfind ->. simpl in *.
  destruct list_find as [[j e]|] eqn:Hlf; [|done].
  simpl in Hfind. injection Hfind as ->.
  apply list_find_Some in Hlf as (Hi & HP & Hmin).
  intros Hname.
  assert (i < MAX_FILES_IN_DIR)%nat as Hlt.
  { apply lookup_lt_Some in Hi. rewrite length_take in Hi. lia. }
  assert (entries dir !! i = Some e) as Hi'
    by (by rewrite lookup_take_lt in Hi).
  rewrite (list_lookup_total_correct _ _ _ Hi') in Hname.
  rewrite take_insert_lt by done.
  assert (list_find (λ e0, filename e0 ≠ "" ∧ filename e0 = name)
            (<[i := e']> (take MAX_FILES_IN_DIR (entries dir)))
          = Some (i, e')) as ->; [|done].
  apply list_find_Some. split_and!.
  - apply list_lookup_insert_eq. by eapply lookup_lt_Some.
  - rewrite Hname. apply HP.
  - rewrite Hname. apply HP.
  - intros j y Hj Hji. rewrite list_lookup_insert_ne in Hj by lia.
    by eapply Hmin.
Qed.

End RoundTrip.

Section WriteRead.
Context `{Layout}.


End WriteRead.

Section WriteReadExamples.
#[local] Existing Instance example_layout.


(** C1 (code defect).  On a mounted image that holds the empty file [a.txt]
    and whose only free data blocks are the last two, [write_file] of
    ["hello"] is given block 65534.  As a [uint16_t] this index is the value
    [FAT_ENTRY_EOF]: [first_block] stays [FAT_ENTRY_EOF], the write returns
    0 and records [file_size = 5], and [read_file] then returns 0 without
    any byte. *)
Theorem write_then_read_empty_at_block_fffe :
  (r ← write_file 2 "a.txt" hello fs_last_two_free;
   e ← stat r.2 "a.txt";
   out ← read_file "a.txt" r.2;
   Some (r.1, file_size e, first_block e, fat_table r.2 65534, out))
  = Some (OK, 5, FAT_ENTRY_EOF, FAT_ENTRY_EOF, (OK, []))
  ∧ fat_table fs_last_two_free 65534 = FAT_ENTRY_FREE.
Proof. split; by vm_compute. Qed.

End WriteReadExamples.

(** * The loops return

    The bounds on the iterations that the model gives to its [while] loops
    are never reached: every operation returns a status. *)

Section Totality.
Context `{Layout}.

Lemma read_loop_total fuel fs b r out :
  0 ≤ r → (Z.to_nat (blocks_for r) ≤ fuel)%nat →
  is_Some (read_loop fuel fs b r out).
Proof.
  revert b r out. induction fuel as [|fuel IH]; intros b r out Hr Hfuel;
    rewrite read_loop_unfold; (case_decide as Hgo; [|by eexists]);
    destruct Hgo as [_ Hpos].
  - pose proof (blocks_for_pos r). lia.
  - destruct (read_block fs b) as [blk|]; [|by eexists]. cbv zeta.
    apply IH; case_decide as Hbig; try lia.
    + rewrite blocks_for_large in Hfuel by lia.
      pose proof (blocks_for_nonneg (r - BLOCK_SIZE)). lia.
    + replace (r - r) with 0 by lia. rewrite blocks_for_zero. simpl. lia.
Qed.

Lemma read_file_total name fs :
  (∀ e, stat fs name = Some e → 0 ≤ file_size e) →
  is_Some (read_file name fs).
Proof.
  intros Hsize. unfold read_file, stat in *.
  destruct (read_dir fs (current_dir_block fs)) as [dir|]; [|by eexists].
  destruct (find_file_in_directory fs (current_dir_block fs) name) as [i|];
    [|by eexists].
  simpl in Hsize. specialize (Hsize _ eq_refl).
  case_decide; [by eexists|]. case_decide; [by eexists|].
  by apply read_loop_total.
Qed.

Lemma allocate_block_wf fs :
  fat_wf (fat_table fs) → fat_wf (fat_table (allocate_block fs).2).
Proof.
  intros Hwf. unfold allocate_block. destruct allocate_scan; [|done]. simpl.
  apply fat_wf_insert; [done | by rewrite MAX_BLOCKS_eq].
Qed.

Lemma write_loop_total fuel fs d r first prev :
  formatted (boot_sector fs) → fat_wf (fat_table fs) →
  0 ≤ first < MAX_BLOCKS →
  0 ≤ r → (Z.to_nat (blocks_for r) ≤ fuel)%nat →
  is_Some (write_loop fuel fs d r first prev).
Proof.
  revert fs d r first prev.
  induction fuel as [|fuel IH]; intros fs d r first prev Hfmt Hwf Hfirst Hr
    Hfuel; rewrite write_loop_unfold; (case_decide as Hpos; [|by eexists]).
  - pose proof (blocks_for_pos r). lia.
  - pose proof (allocate_block_wf fs Hwf) as Hwf1.
    destruct (allocate_block fs) as [new fs1] eqn:Halloc. simpl in Hwf1.
    apply (allocate_block_inv _ _ _ Hfmt) in Halloc
        as (Hb1 & Hc1 & Hk1 & [(Hnew & Hfree & Hmin & Hf1)|(-> & _ & Hf1)]).
    2:{ rewrite decide_True by done. case_decide; [|by eexists].
        destruct (free_blocks_total fs1 first Hwf1 Hfirst) as [fs2 ->].
        by eexists. }
    rewrite decide_False by (unfold FAT_ENTRY_FREE; lia). cbv zeta.
    set (fs2 := if decide (prev ≠ FAT_ENTRY_EOF)
                then set_fat_table fs1 (<[prev := new]> (fat_table fs1))
                else fs1).
    assert (boot_sector fs2 = boot_sector fs1 ∧ fat_wf (fat_table fs2))
      as [Hb2 Hwf2].
    { unfold fs2. destruct (decide (prev ≠ FAT_ENTRY_EOF)); [|done]. simpl.
      split; [done|]. apply fat_wf_insert; [done|].
      rewrite MAX_BLOCKS_eq. lia. }
    match goal with |- context [write_block _ _ ?b] => set (blk := b) end.
    destruct (write_block_in_range fs2 new blk) as [fs3 Hwrite].
    { rewrite Hb2, Hb1. destruct Hfmt as [-> _]. lia. }
    rewrite Hwrite.
    apply write_block_Some in Hwrite as (Hb3 & Hc3 & Hf3 & Hk3).
    apply IH.
    + by rewrite Hb3, Hb2, Hb1.
    + by rewrite Hf3.
    + rewrite MAX_BLOCKS_eq in *.
      destruct (decide (first = FAT_ENTRY_EOF)); lia.
    + case_decide; lia.
    + case_decide as Hbig.
      * rewrite blocks_for_large in Hfuel by lia.
        pose proof (blocks_for_nonneg (r - BLOCK_SIZE)). lia.
      * replace (r - r) with 0 by lia. rewrite blocks_for_zero. simpl. lia.
Qed.

(** [write_file] returns on every mounted formatted image whose table holds
    16-bit cells and whose entries hold a 16-bit [first_block]. *)
Lemma write_file_total now name data fs :
  formatted (boot_sector fs) → fat_wf (fat_table fs) →
  (∀ e, stat fs name = Some e → 0 ≤ first_block e < MAX_BLOCKS) →
  is_Some (write_file now name data fs).
Proof.
  intros Hfmt Hwf Hentry. unfold write_file, stat in *.
  destruct (read_dir fs (current_dir_block fs)) as [dir|]; [|by eexists].
  destruct (find_file_in_directory fs (current_dir_block fs) name) as [i|];
    [|by eexists].
  simpl in Hentry. specialize (Hentry _ eq_refl).
  case_decide; [by eexists|]. case_decide; [by eexists|].
  assert (∃ fs1, (if decide (first_block (entries dir !!! i) ≠ FAT_ENTRY_EOF)
                  then free_blocks fs (first_block (entries dir !!! i))
                  else Some fs) = Some fs1
                 ∧ formatted (boot_sector fs1) ∧ fat_wf (fat_table fs1))
    as (fs1 & -> & Hfmt1 & Hwf1).
  { case_decide.
    - destruct (free_blocks_total fs _ Hwf Hentry) as [fs1 Hfree].
      exists fs1. split; [done|].
      apply free_blocks_Some in Hfree as (fat1 & Hrun & ->). simpl.
      split; [done|]. by eapply free_loop_wf.
    - by exists fs. }
  simpl.
  destruct (write_loop_total
              (Z.to_nat (blocks_for (u32 (Z.of_nat (strlen data)))))
              fs1 data (u32 (Z.of_nat (strlen data)))
              FAT_ENTRY_EOF FAT_ENTRY_EOF) as [res ->];
    [done|done|by rewrite MAX_BLOCKS_eq| |done|].
  { unfold u32. apply Z.mod_pos_bound. lia. }
  simpl. destruct res as [fs2 first prev|err fs2]; [|by eexists].
  destruct write_block; by eexists.
Qed.

End Totality.

(** * Truncation to zero *)

Section TruncateZero.
Context `{Layout}.


End TruncateZero.

Section TruncateZeroExamples.
#[local] Existing Instance example_layout.


Lemma write_file_total_witness :
  is_Some (write_file 4 "a.txt" xs1025 fs_hello).
Proof.
  apply (write_file_total 4 "a.txt" xs1025 fs_hello).
  - by vm_compute.
  - exact fs_hello_fat_wf.
  - intros e He.
    assert (stat fs_hello "a.txt" = Some hello_entry) as Hs
      by (vm_compute; reflexivity).
    rewrite Hs in He. injection He as <-. clear Hs. by vm_compute.
Defined.

End TruncateZeroExamples.
(** * Directory slots: [create_file] *)

(** Overwriting a slot that did not match by an entry that does not match
    leaves the search as it was. *)
Lemma list_find_insert_other {A} (P : A → Prop) `{!∀ x, Decision (P x)}
    (l : list A) (i : nat) (x : A) :
  (∀ y, l !! i = Some y → ¬ P y) → ¬ P x →
  list_find P (<[i := x]> l) = list_find P l.
Proof.
  revert i. induction l as [|y l IH]; intros i Hold Hnew; [done|].
  destruct i as [|i]; simpl.
  - rewrite decide_False by done.
    by rewrite decide_False by (by apply Hold).
  - case_decide; [done|]. rewrite IH; [done| |done].
    intros z Hz. by apply Hold.
Qed.


Section Slots.
Context `{Layout}.

(** [stat] delivers the first occupied slot that has the name. *)
Lemma stat_list_find fs name :
  stat fs name =
  dir ← read_dir fs (current_dir_block fs);
  snd <$> list_find (λ e, filename e ≠ "" ∧ filename e = name)
                    (take MAX_FILES_IN_DIR (entries dir)).
Proof.
  unfold stat, find_file_in_directory.
  destruct (read_dir fs (current_dir_block fs)) as [dir|]; [|done]. simpl.
  destruct list_find as [[i e]|] eqn:Hfind; [|done]. simpl.
  apply list_find_Some in Hfind as (Hi & _).
  apply lookup_take_Some in Hi as [Hi _].
  by rewrite (list_lookup_total_correct _ _ _ Hi).
Qed.

Lemma stat_name fs name e :
  stat fs name = Some e → name ≠ "" ∧ filename e = name.
Proof.
  rewrite stat_list_find.
  destruct (read_dir fs (current_dir_block fs)) as [dir|]; [|done]. simpl.
  destruct list_find as [[i x]|] eqn:Hfind; [|done]. intros [= ->].
  apply list_find_Some in Hfind as (_ & [Hne Heq] & _).
  split; congruence.
Qed.




Lemma read_dir_written fs fs' b dir :
  write_block fs b (DirBlock dir) = Some fs' →
  read_dir fs' b = Some dir.
Proof.
  unfold write_block, read_dir, read_block. case_decide; [done|].
  intros [= <-]. simpl. rewrite decide_False by done. simpl.
  by rewrite fn_lookup_insert.
Qed.

(** What a successful [create_file] has done. *)
Lemma create_file_OK now name fs fs' :
  create_file now name fs = (OK, fs') →
  ∃ dir i,
    Z.of_nat (String.length name) < MAX_FILENAME_SIZE
    ∧ read_dir fs (current_dir_block fs) = Some dir
    ∧ find_file_in_directory fs (current_dir_block fs) name = None
    ∧ find_free_directory_entry fs (current_dir_block fs) = Some i
    ∧ write_block fs (current_dir_block fs)
        (DirBlock (set_entry_count
                     (set_entry dir i (new_file_entry now name))
                     (u16 (entry_count dir + 1))))
      = Some fs'.
Proof.
  unfold create_file. case_decide as Hlen; [done|].
  destruct (read_dir fs (current_dir_block fs)) as [dir|] eqn:Hdir; [|done].
  destruct (find_file_in_directory fs (current_dir_block fs) name)
    eqn:Hfind; [done|].
  destruct (find_free_directory_entry fs (current_dir_block fs))
    as [i|] eqn:Hfree; [|done].
  cbv zeta. destruct write_block as [fs1|] eqn:Hwrite; [|done].
  intros [= <-]. exists dir, i. split_and!; [lia|done..].
Qed.






End Slots.
(** * Files and their chains *)

Lemma blocks_for_mono a b : a ≤ b → blocks_for a ≤ blocks_for b.
Proof.
  intros Hab. unfold blocks_for, BLOCK_SIZE.
  apply Z.div_le_mono; lia.
Qed.

Lemma blocks_for_ge r : r ≤ BLOCK_SIZE * blocks_for r.
Proof.
  unfold blocks_for, BLOCK_SIZE.
  pose proof (Z.mul_div_le (r + 1024 - 1) 1024).
  pose proof (Z.mod_pos_bound (r + 1024 - 1) 1024).
  pose proof (Z.div_mod (r + 1024 - 1) 1024). lia.
Qed.

Lemma last_cons_default {A} (x : A) (l : list A) :
  last (x :: l) = Some (default x (last l)).
Proof.
  revert x. induction l as [|y l IH]; intros x; [done|].
  change (last (x :: y :: l)) with (last (y :: l)). by rewrite IH.
Qed.

(** The rest of a chain is a chain. *)
Lemma linked_app fat b l1 l2 :
  linked fat b (l1 ++ l2) →
  linked fat (default FAT_ENTRY_EOF (head l2)) l2.
Proof.
  revert b. induction l1 as [|x l1 IH]; intros b; simpl.
  - intros Hl. by rewrite <- (linked_first _ _ _ Hl).
  - intros [_ Hl]. by eapply IH.
Qed.

(** A chain cut after the blocks [l1]: the table may differ from the one
    of the whole chain at the blocks that are not in [l1], and holds
    [FAT_ENTRY_EOF] at the last block of [l1]. *)
Lemma linked_prefix fat fat' b l1 l2 :
  linked fat b (l1 ++ l2) → l1 ≠ [] → NoDup l1 →
  (∀ x, x ∈ l1 → last l1 ≠ Some x → fat' x = fat x) →
  (∀ x, last l1 = Some x → fat' x = FAT_ENTRY_EOF) →
  linked fat' b l1.
Proof.
  revert b. induction l1 as [|x l1 IH]; intros b Hl Hne Hnd Hsame Hlast;
    [done|].
  destruct Hl as [-> Hl]. apply NoDup_cons in Hnd as [Hx Hnd].
  split; [done|]. destruct l1 as [|y l1].
  - simpl. by apply Hlast.
  - rewrite Hsame.
    + apply IH; [done..| |].
      * intros z Hz Hzl. apply Hsame; [by apply list_elem_of_further|done].
      * intros z Hz. by apply Hlast.
    + apply list_elem_of_here.
    + change (last (x :: y :: l1)) with (last (y :: l1)).
      intros Hz%last_Some_elem_of. done.
Qed.

(** [free_blocks] on a chain without a repetition frees its blocks and no
    other cell. *)
Lemma free_loop_linked fuel fat b A :
  linked fat b A → NoDup A → (∀ x, x ∈ A → ¬ stops x) →
  (length A ≤ fuel)%nat →
  ∃ fat', free_loop fuel fat b = Some fat'
          ∧ (∀ x, x ∈ A → fat' x = FAT_ENTRY_FREE)
          ∧ (∀ x, x ∉ A → fat' x = fat x).
Proof.
  revert fuel fat b. induction A as [|x A IH]; intros fuel fat b Hl Hnd Hns Hf.
  - simpl in Hl. subst b. exists fat.
    rewrite free_loop_stops by (by left). split_and!; [done| |done].
    intros x Hx. by apply elem_of_nil in Hx.
  - destruct Hl as [-> Hl]. apply NoDup_cons in Hnd as [Hx Hnd].
    destruct fuel as [|fuel]; [simpl in Hf; lia|].
    rewrite free_loop_step by (apply Hns; in_list).
    destruct (IH fuel (<[x := FAT_ENTRY_FREE]> fat) (fat x))
      as (fat' & Hrun & Hin & Hout).
    + eapply linked_frame; [|done]. intros y Hy.
      rewrite fn_lookup_insert_ne; [done|]. by intros ->.
    + done.
    + intros y Hy. apply Hns. in_list.
    + simpl in Hf. lia.
    + exists fat'. split; [done|]. split.
      * intros y [->|Hy]%elem_of_cons; [|by apply Hin].
        rewrite Hout by done. apply fn_lookup_insert.
      * intros y [Hyx Hy]%not_elem_of_cons. rewrite Hout by done.
        by rewrite fn_lookup_insert_ne.
Qed.

(** The walk of [truncate_file] along a chain. *)
Lemma truncate_walk_linked n fat b p A :
  linked fat b A → (∀ x, x ∈ A → x ≠ FAT_ENTRY_EOF) → (n ≤ length A)%nat →
  truncate_walk n fat b p
  = (default FAT_ENTRY_EOF (head (drop n A)), default p (last (take n A))).
Proof.
  revert b p A. induction n as [|n IH]; intros b p A Hl Hne Hn.
  - simpl. rewrite drop_0. by rewrite <- (linked_first _ _ _ Hl).
  - destruct A as [|x A]; [simpl in Hn; lia|]. destruct Hl as [-> Hl].
    simpl truncate_walk. rewrite decide_True by (apply Hne; in_list).
    rewrite (IH _ _ A); [|done| |simpl in Hn; lia].
    + simpl take. simpl drop. by rewrite last_cons_default.
    + intros y Hy. apply Hne. in_list.
Qed.

Section Stores.
Context `{Layout}.

Lemma blocks_bytes_app fs l1 l2 :
  blocks_bytes fs (l1 ++ l2) = blocks_bytes fs l1 ++ blocks_bytes fs l2.
Proof. unfold blocks_bytes. by rewrite map_app, concat_app. Qed.

Lemma blocks_bytes_length fs l :
  Forall (block_ok fs) l →
  length (blocks_bytes fs l) = (length l * Z.to_nat BLOCK_SIZE)%nat.
Proof.
  induction 1 as [|x l [_ Hx] _ IH]; [done|].
  rewrite blocks_bytes_cons, length_app, Hx, IH. simpl. lia.
Qed.

Lemma blocks_bytes_frame fs fs' l :
  (∀ x, x ∈ l → img_blocks (disk_file fs') x = img_blocks (disk_file fs) x) →
  blocks_bytes fs' l = blocks_bytes fs l.
Proof.
  intros Hsame. unfold blocks_bytes. f_equal. apply map_ext_in.
  intros x Hx%list_elem_of_In. by rewrite Hsame.
Qed.

Lemma block_ok_frame fs fs' l :
  boot_sector fs' = boot_sector fs →
  (∀ x, x ∈ l → img_blocks (disk_file fs') x = img_blocks (disk_file fs) x) →
  Forall (block_ok fs) l → Forall (block_ok fs') l.
Proof.
  intros Hb Hsame Hok. apply Forall_forall. intros x Hx.
  rewrite Forall_forall in Hok. destruct (Hok x Hx) as [Hlt Hlen].
  split; [by rewrite Hb | by rewrite Hsame].
Qed.

(** [read_file] delivers what the entry stores. *)
Lemma read_file_stores name fs e A content :
  stat fs name = Some e → type e = TYPE_FILE → stores fs e A content →
  read_file name fs = Some (OK, content).
Proof.
  intros Hstat Htype [Hl Hnd Hr Hlen Hok Hsize ->].
  apply stat_Some in Hstat as (dir & i & Hdir & Hfind & He).
  unfold read_file. rewrite Hdir, Hfind, <- He.
  rewrite decide_False by (by intros []).
  case_decide as Hzero.
  { by rewrite Hzero. }
  rewrite read_loop_chain; [|lia|done|];
    rewrite (linked_eof_chain _ _ A) by (done || lia); done.
Qed.

(** Rewriting the slot of one name does not change what the search for
    another name delivers. *)
Lemma stat_rewritten_other fs fs' dir name i e' other :
  read_dir fs (current_dir_block fs) = Some dir →
  find_file_in_directory fs (current_dir_block fs) name = Some i →
  read_dir fs' (current_dir_block fs') = Some (set_entry dir i e') →
  filename e' = filename (entries dir !!! i) →
  other ≠ name →
  stat fs' other = stat fs other.
Proof.
  intros Hdir Hfind Hdir' Hname Hother.
  rewrite !stat_list_find, Hdir, Hdir'. simpl.
  unfold find_file_in_directory in Hfind. rewrite Hdir in Hfind.
  simpl in Hfind.
  destruct list_find as [[j e]|] eqn:Hlf; [|done].
  simpl in Hfind. injection Hfind as ->.
  apply list_find_Some in Hlf as (Hi & [_ He] & _).
  pose proof Hi as Hlt%lookup_lt_Some. rewrite length_take in Hlt.
  pose proof Hi as [Hi' _]%lookup_take_Some.
  rewrite (list_lookup_total_correct _ _ _ Hi') in Hname.
  rewrite take_insert_lt by lia.
  rewrite list_find_insert_other; [done| |].
  - intros y Hy [_ Hy']. congruence.
  - intros [_ He']. congruence.
Qed.



End Stores.
(** * Shrinking a file *)

Lemma free_fuel_ge n : Z.of_nat n ≤ MAX_BLOCKS → (n ≤ free_fuel)%nat.
Proof. unfold free_fuel. rewrite MAX_BLOCKS_eq. lia. Qed.

Section Shrink.
Context `{Layout}.

Lemma write_block_image fs b blk fs' :
  write_block fs b blk = Some fs' →
  img_boot (disk_file fs') = img_boot (disk_file fs)
  ∧ img_fat (disk_file fs') = img_fat (disk_file fs).
Proof. unfold write_block. case_decide; [done|]. by intros [= <-]. Qed.

(** On a formatted image the loop "Write updated FAT to disk" copies every
    cell of the table. *)
Lemma flushed_cell fs :
  formatted (boot_sector fs) →
  ∀ i, 0 ≤ i < MAX_BLOCKS →
       img_fat (disk_file (flush_fat fs)) i = fat_table fs i.
Proof.
  intros (Htotal & Hfat & _) i Hi. simpl. rewrite Htotal, Hfat.
  rewrite decide_True; [done|]. rewrite MAX_BLOCKS_eq in Hi.
  change (BLOCK_SIZE / 2) with 512.
  assert (i / 512 < 128) by (apply Z.div_lt_upper_bound; lia). lia.
Qed.


(** What [truncate_file] does to a stored file when [new_size] is below
    [file_size]. *)
Lemma truncate_file_stores now name k fs e A content :
  formatted (boot_sector fs) → current_dir_block fs = 129 →
  stat fs name = Some e → type e = TYPE_FILE → stores fs e A content →
  0 ≤ k < file_size e →
  ∃ fs',
    truncate_file now name k fs = Some (OK, fs')
    ∧ stat fs' name = Some (set_file e (first_block e) k (u32 now))
    ∧ (0 < k →
       stores fs' (set_file e (first_block e) k (u32 now))
              (take (Z.to_nat (blocks_for k)) A)
              (take (Z.to_nat k) content))
    ∧ (∀ x, x ∈ drop (Z.to_nat (blocks_for k)) A →
            fat_table fs' x = FAT_ENTRY_FREE)
    ∧ (∀ x, x ∉ A → fat_table fs' x = fat_table fs x)
    ∧ (∀ other, other ≠ name → stat fs' other = stat fs other)
    ∧ boot_sector fs' = boot_sector fs
    ∧ current_dir_block fs' = 129
    ∧ (∀ x, x ≠ 129 →
            img_blocks (disk_file fs') x = img_blocks (disk_file fs) x)
    ∧ (drop (Z.to_nat (blocks_for k)) A ≠ [] →
       ∀ x, 0 ≤ x < MAX_BLOCKS → x ∉ drop (Z.to_nat (blocks_for k)) A →
            img_fat (disk_file fs') x = fat_table fs x).
Proof.
  intros Hfmt Hcur Hstat Htype [Hl Hnd Hr Hlen Hok Hsize ->] Hk.
  destruct (stat_Some _ _ _ Hstat) as (dir & i & Hdir & Hfind & He).
  unfold truncate_file. rewrite Hdir, Hfind, <- He.
  rewrite decide_False by (by intros []).
  rewrite decide_False by lia. rewrite decide_False by lia.
  rewrite u32_small by (unfold MAX_FILE_BLOCKS, BLOCK_SIZE in *; lia).
  change (?a / BLOCK_SIZE) with (blocks_for k).
  set (n := Z.to_nat (blocks_for k)).
  assert (n ≤ length A)%nat as Hn.
  { rewrite Hlen. unfold n. pose proof (blocks_for_mono k (file_size e)).
    pose proof (blocks_for_nonneg k). lia. }
  rewrite (truncate_walk_linked _ _ _ _ A); [|done| |done].
  2:{ intros x Hx%Hr. unfold FAT_ENTRY_EOF. lia. }
  set (l1 := take n A). set (l2 := drop n A).
  assert (A = l1 ++ l2) as HA by (symmetry; apply take_drop).
  assert (NoDup l1 ∧ NoDup l2 ∧ ∀ x, x ∈ l1 → x ∉ l2) as (Hnd1 & Hnd2 & Hdis).
  { rewrite HA in Hnd. apply NoDup_app in Hnd as (? & ? & ?). done. }
  assert (∀ x, x ∈ l1 → x ∈ A) as Hin1
    by (intros x Hx; rewrite HA; apply elem_of_app; by left).
  assert (∀ x, x ∈ l2 → x ∈ A) as Hin2
    by (intros x Hx; rewrite HA; apply elem_of_app; by right).
  assert (∀ x, last l1 = Some x → x ∈ l1) as Hlast1
    by (intros x Hx; by apply last_Some_elem_of).
  cbv iota beta.
  assert (∃ fs1,
            (if decide (default FAT_ENTRY_EOF (head l2) ≠ FAT_ENTRY_EOF)
             then fs1 ← free_blocks fs (default FAT_ENTRY_EOF (head l2));
                  Some (if decide (default FAT_ENTRY_EOF (last l1)
                                   ≠ FAT_ENTRY_EOF)
                        then set_fat_table fs1
                               (<[default FAT_ENTRY_EOF (last l1)
                                  := FAT_ENTRY_EOF]> (fat_table fs1))
                        else fs1)
             else Some fs) = Some fs1
            ∧ boot_sector fs1 = boot_sector fs
            ∧ current_dir_block fs1 = current_dir_block fs
            ∧ img_blocks (disk_file fs1) = img_blocks (disk_file fs)
            ∧ (∀ x, x ∈ l2 → fat_table fs1 x = FAT_ENTRY_FREE)
            ∧ (∀ x, x ∉ A → fat_table fs1 x = fat_table fs x)
            ∧ (∀ x, x ∈ l1 → last l1 ≠ Some x →
                    fat_table fs1 x = fat_table fs x)
            ∧ (∀ x, last l1 = Some x → fat_table fs1 x = FAT_ENTRY_EOF)
            ∧ (l2 ≠ [] → ∀ x, 0 ≤ x < MAX_BLOCKS → x ∉ l2 →
                         img_fat (disk_file fs1) x = fat_table fs x))
    as (fs1 & -> & Hb1 & Hc1 & Hk1 & Hfreed & Hout & Hsame & Hend & Hstale).
  { destruct l2 as [|y l2'] eqn:Hl2.
    - simpl. exists fs. split_and!; try done.
      + intros x Hx. by apply elem_of_nil in Hx.
      + intros x Hx. rewrite app_nil_r in HA. rewrite <- HA in Hx.
        by eapply linked_last.
    - simpl head. simpl default.
      assert (130 ≤ y < 65534) as Hy by (apply Hr, Hin2; in_list).
      rewrite decide_True by (unfold FAT_ENTRY_EOF; lia).
      destruct (free_loop_linked free_fuel (fat_table fs) y (y :: l2'))
        as (fat1 & Hrun & Hin & Hnot).
      + rewrite HA in Hl. by apply linked_app in Hl.
      + done.
      + intros x Hx%Hin2%Hr. rewrite stops_cases. lia.
      + apply free_fuel_ge. rewrite MAX_BLOCKS_eq.
        assert (length (y :: l2') ≤ length A)%nat
          by (rewrite HA, length_app; lia).
        pose proof (blocks_for_mono (file_size e)
                      (MAX_FILE_BLOCKS * BLOCK_SIZE)) as Hm.
        change (blocks_for (MAX_FILE_BLOCKS * BLOCK_SIZE)) with 128 in Hm.
        lia.
      + unfold free_blocks. rewrite Hrun. simpl.
        destruct (last l1) as [p|] eqn:Hp; simpl.
        * assert (p ∈ l1) as Hpin by (by apply Hlast1).
          assert (130 ≤ p < 65534) as Hprange by (by apply Hr, Hin1).
          rewrite decide_True by (unfold FAT_ENTRY_EOF; lia).
          eexists. split; [done|]. simpl. split_and!; try done.
          -- intros x Hx. rewrite fn_lookup_insert_ne.
             ++ by apply Hin.
             ++ intros ->. by apply (Hdis x).
          -- intros x Hx. rewrite fn_lookup_insert_ne.
             ++ apply Hnot. intros Hx'. by apply Hx, Hin2.
             ++ intros ->. by apply Hx, Hin1.
          -- intros x Hx Hxl. rewrite fn_lookup_insert_ne by congruence.
             apply Hnot. by apply Hdis.
          -- intros x [= <-]. apply fn_lookup_insert.
          -- intros _ x Hx Hxl.
             etrans; [apply (flushed_cell (set_fat_table fs fat1) Hfmt x Hx)|].
             by apply Hnot.
        * eexists. split; [done|]. simpl. split_and!; try done.
          -- intros x Hx. apply Hnot. intros Hx'. by apply Hx, Hin2.
          -- intros x Hx _. apply Hnot. by apply Hdis.
          -- intros _ x Hx Hxl.
             etrans; [apply (flushed_cell (set_fat_table fs fat1) Hfmt x Hx)|].
             by apply Hnot. }
  simpl.
  pose proof Hfmt as (Htotal & _).
  set (e' := set_file e (first_block e) k (u32 now)).
  destruct (write_block_in_range fs1 (current_dir_block fs1)
              (DirBlock (set_entry dir i e'))) as [fs2 Hwrite].
  { rewrite Hb1, Hc1, Hcur, Htotal. lia. }
  rewrite Hwrite. exists fs2. split; [done|].
  pose proof (read_dir_written _ _ _ _ Hwrite) as Hdir2.
  pose proof (write_block_image _ _ _ _ Hwrite) as [_ Hi2].
  apply write_block_Some in Hwrite as (Hb2 & Hc2 & Hf2 & Hk2).
  rewrite Hc1 in Hdir2.
  assert (find_file_in_directory fs2 (current_dir_block fs) name = Some i)
    as Hfind2.
  { apply (find_file_in_directory_rewritten fs fs2 _ dir name i e'
             Hdir Hfind Hdir2). by rewrite <- He. }
  pose proof (find_file_in_directory_lt _ _ _ _ _ Hdir Hfind) as Hi.
  assert (∀ x, x ≠ 129 →
               img_blocks (disk_file fs2) x = img_blocks (disk_file fs) x)
    as Hdisk.
  { intros x Hx. rewrite Hk2, Hc1, Hcur, Hk1.
    by rewrite fn_lookup_insert_ne. }
  split_and!.
  - unfold stat. rewrite Hc2, Hc1, Hdir2. simpl. rewrite Hfind2. simpl.
    f_equal. by apply list_lookup_total_insert_eq.
  - intros Hpos.
    assert (l1 ≠ []) as Hne.
    { intros Hnil. apply (f_equal length) in Hnil. unfold l1 in Hnil.
      rewrite length_take in Hnil. simpl in Hnil.
      pose proof (blocks_for_pos k). lia. }
    split.
    + rewrite Hf2. simpl. rewrite HA in Hl.
      by eapply linked_prefix.
    + done.
    + intros x Hx. by apply Hr, Hin1.
    + unfold l1. rewrite length_take. simpl. lia.
    + apply (block_ok_frame fs).
      * congruence.
      * intros x Hx%Hin1%Hr. apply Hdisk. lia.
      * by apply Forall_take.
    + simpl. lia.
    + simpl. rewrite take_take.
      rewrite (blocks_bytes_frame fs fs2 l1)
        by (intros x Hx%Hin1%Hr; apply Hdisk; lia).
      rewrite HA at 1. rewrite blocks_bytes_app.
      rewrite Nat.min_l by lia.
      rewrite take_app_le; [done|].
      rewrite blocks_bytes_length by (by apply Forall_take).
      unfold l1. rewrite length_take, Nat.min_l by done.
      pose proof (blocks_for_ge k). pose proof (blocks_for_nonneg k).
      unfold n, BLOCK_SIZE in *. lia.
  - intros x Hx. rewrite Hf2. by apply Hfreed.
  - intros x Hx. rewrite Hf2. by apply Hout.
  - intros other Hother.
    apply (stat_rewritten_other fs _ dir name i e'); try done.
    + by rewrite Hc2, Hc1.
    + by rewrite <- He.
  - congruence.
  - congruence.
  - done.
  - intros Hne x Hx Hxl. rewrite Hi2. by apply Hstale.
Qed.




End Shrink.
(** * One file at a time *)

(** The walk of [free_blocks] stays inside every set of cells that holds
    its start and is closed under the next pointers. *)
Lemma free_loop_closed (S : Z → Prop) fuel fat b fat' :
  (¬ stops b → S b) →
  (∀ x, S x → ¬ stops (fat x) → S (fat x)) →
  free_loop fuel fat b = Some fat' →
  ∀ x, ¬ S x → fat' x = fat x.
Proof.
  revert fat b. induction fuel as [|fuel IH]; intros fat b Hb Hclosed Hrun;
    (destruct (decide (stops b)) as [Hs|Hs];
     [rewrite free_loop_stops in Hrun by done; by injection Hrun as <-|]).
  - by rewrite free_loop_out in Hrun.
  - rewrite free_loop_step in Hrun by done. intros x Hx.
    transitivity (<[b := FAT_ENTRY_FREE]> fat x).
    2:{ apply fn_lookup_insert_ne. intros <-. by apply Hx, Hb. }
    eapply IH; [| |exact Hrun|exact Hx].
    + apply Hclosed. by apply Hb.
    + intros y Hy. destruct (decide (y = b)) as [->|Hne].
      * rewrite fn_lookup_insert. intros Hns. destruct Hns. by right.
      * rewrite fn_lookup_insert_ne by done. by apply Hclosed.
Qed.

Lemma linked_closed fat b A x :
  linked fat b A → x ∈ A → ¬ stops (fat x) → fat x ∈ A.
Proof.
  revert b. induction A as [|y A IH]; intros b Hl Hx Hns;
    [by apply elem_of_nil in Hx|].
  destruct Hl as [-> Hl]. apply elem_of_cons in Hx as [->|Hx].
  - apply list_elem_of_further. destruct A as [|z A]; simpl in Hl.
    + destruct Hns. by left.
    + destruct Hl as [-> _]. apply list_elem_of_here.
  - apply list_elem_of_further. by eapply IH.
Qed.

Section Isolation.
Context `{Layout}.

Lemma stores_frame fs fs' e A content :
  boot_sector fs' = boot_sector fs →
  (∀ x, x ∈ A → fat_table fs' x = fat_table fs x
                 ∧ img_blocks (disk_file fs') x
                   = img_blocks (disk_file fs) x) →
  stores fs e A content → stores fs' e A content.
Proof.
  intros Hb Hsame [Hl Hnd Hr Hlen Hok Hsize Hc]. split; try done.
  - eapply linked_frame; [|done]. intros x Hx. by apply Hsame.
  - eapply block_ok_frame; [done| |done]. intros x Hx. by apply Hsame.
  - rewrite (blocks_bytes_frame fs fs'); [done|].
    intros x Hx. by apply Hsame.
Qed.

(** The loop of [write_file] leaves alone every cell that is in use and
    outside the chain it builds, and the block of that cell, whether it
    ends normally or not.  [S] holds the blocks of the chain built so
    far. *)
Lemma write_loop_protects (U S : Z → Prop) fuel fs d r first prev res :
  formatted (boot_sector fs) →
  (∀ x, U x → fat_table fs x ≠ FAT_ENTRY_FREE ∧ ¬ stops x) →
  (∀ x, S x → ¬ U x) →
  (∀ x, S x → ¬ stops (fat_table fs x) → S (fat_table fs x)) →
  (first ≠ FAT_ENTRY_EOF → S first) →
  (prev ≠ FAT_ENTRY_EOF → S prev) →
  write_loop fuel fs d r first prev = Some res →
  (∀ x, U x →
        fat_table (write_loop_state res) x = fat_table fs x
        ∧ img_blocks (disk_file (write_loop_state res)) x
          = img_blocks (disk_file fs) x)
  ∧ (∀ x, x < 130 →
          img_blocks (disk_file (write_loop_state res)) x
          = img_blocks (disk_file fs) x)
  ∧ boot_sector (write_loop_state res) = boot_sector fs
  ∧ current_dir_block (write_loop_state res) = current_dir_block fs
  ∧ (∀ fs' first' prev',
       res = WriteDone fs' first' prev' →
       prev' ≠ FAT_ENTRY_EOF → ¬ U prev').
Proof.
  revert fs d r first prev S.
  induction fuel as [|fuel IH];
    intros fs d r first prev S Hfmt HU HS Hclosed Hfirst Hprev;
    rewrite write_loop_unfold; case_decide as Hpos; try done.
  - intros [= <-]. simpl. split_and!; try done.
    intros fs' first' prev' [= <- <- <-] Hne Hin.
    by apply (HS prev); [apply Hprev|].
  - destruct (allocate_block fs) as [new fs1] eqn:Halloc.
    apply (allocate_block_inv _ _ _ Hfmt) in Halloc
        as (Hb1 & Hc1 & Hk1 & [(Hnew & Hfree & Hmin & Hf1)|(-> & _ & Hf1)]).
    2:{ rewrite decide_True by done.
        destruct (if decide (first ≠ FAT_ENTRY_EOF)
                  then free_blocks fs1 first else Some fs1)
          as [fs2|] eqn:Hundo; [|done].
        simpl. intros [= <-]. simpl.
        case_decide as Hne.
        - apply free_blocks_Some in Hundo as (fat2 & Hrun & ->). simpl.
          split_and!; try done; [|by intros x Hx; rewrite Hk1].
          intros x Hx. destruct (HU x Hx) as [_ Hns].
          rewrite Hk1. split; [|done]. rewrite <- (Hf1 x Hns).
          apply (free_loop_closed (λ y, S y ∧ ¬ stops y) _ _ _ _
                   ltac:(intros ?; split; [by apply Hfirst|done])
                   ltac:(intros y [Hy Hyn] Hn; rewrite (Hf1 y Hyn) in Hn |- *;
                         split; [by apply Hclosed|done])
                   Hrun).
          intros [Hx' _]. by apply (HS x).
        - injection Hundo as <-.
          split_and!; try done; [|by intros x Hx; rewrite Hk1].
          intros x Hx. destruct (HU x Hx) as [_ Hns].
          by rewrite Hk1, (Hf1 x Hns). }
    rewrite decide_False by (unfold FAT_ENTRY_FREE; lia). cbv zeta.
    set (fs2 := if decide (prev ≠ FAT_ENTRY_EOF)
                then set_fat_table fs1 (<[prev := new]> (fat_table fs1))
                else fs1).
    assert (boot_sector fs2 = boot_sector fs1
            ∧ current_dir_block fs2 = current_dir_block fs1
            ∧ img_blocks (disk_file fs2) = img_blocks (disk_file fs1))
      as (Hb2 & Hc2 & Hk2) by (unfold fs2; by case_decide).
    match goal with |- context [write_block _ _ ?b] => set (blk := b) end.
    destruct (write_block fs2 new blk) as [fs3|] eqn:Hwrite.
    2:{ destruct (write_block_in_range fs2 new blk) as [? Hsome];
          [|congruence].
        rewrite Hb2, Hb1. destruct Hfmt as [-> _]. lia. }
    apply write_block_Some in Hwrite as (Hb3 & Hc3 & Hf3 & Hk3).
    assert (¬ U new) as HnU by (intros Hin; by destruct (HU new Hin)).
    assert (∀ x, x ≠ new → (prev ≠ FAT_ENTRY_EOF → x ≠ prev) →
                 fat_table fs3 x = fat_table fs x) as Hsame.
    { intros x Hx Hxp. rewrite Hf3. unfold fs2.
      destruct (decide (prev ≠ FAT_ENTRY_EOF)); simpl.
      - rewrite fn_lookup_insert_ne by (intros <-; by apply Hxp).
        rewrite Hf1. by rewrite fn_lookup_insert_ne.
      - rewrite Hf1. by rewrite fn_lookup_insert_ne. }
    assert (∀ x, U x → fat_table fs3 x = fat_table fs x) as HsameU.
    { intros x Hx. apply Hsame; [by intros ->|].
      intros Hne ->. by apply (HS prev); [apply Hprev|]. }
    intros Hrun.
    apply (IH _ _ _ _ _ (λ x, S x ∨ x = new)) in Hrun
        as (HUres & Hsys & Hbres & Hcres & Hpres).
    + split_and!.
      * intros x Hx. destruct (HUres x Hx) as [-> ->].
        split; [by apply HsameU|].
        rewrite Hk3, fn_lookup_insert_ne by (by intros ->).
        by rewrite Hk2, Hk1.
      * intros x Hx. rewrite (Hsys x Hx).
        rewrite Hk3, fn_lookup_insert_ne by lia. by rewrite Hk2, Hk1.
      * congruence.
      * congruence.
      * done.
    + congruence.
    + intros x Hx. rewrite (HsameU x Hx). by apply HU.
    + intros x [Hx| ->]; [by apply HS|done].
    + intros x Hx. destruct (decide (prev ≠ FAT_ENTRY_EOF ∧ x = prev))
        as [[Hp ->]|Hnp].
      * intros _. right. rewrite Hf3. unfold fs2.
        rewrite decide_True by done. simpl. apply fn_lookup_insert.
      * destruct (decide (x = new)) as [->|Hxn].
        -- rewrite Hf3. unfold fs2.
           destruct (decide (prev ≠ FAT_ENTRY_EOF)); simpl.
           ++ rewrite fn_lookup_insert_ne
                by (intros <-; apply Hnp; by split).
              rewrite Hf1, fn_lookup_insert. intros Hns. destruct Hns.
              by left.
           ++ rewrite Hf1, fn_lookup_insert. intros Hns. destruct Hns.
              by left.
        -- destruct Hx as [Hx|Hx]; [|done].
           rewrite Hsame; [|done|].
           ++ intros Hns. left. by apply Hclosed.
           ++ intros Hp ->. apply Hnp. by split.
    + destruct (decide (first = FAT_ENTRY_EOF)); intros Hne;
        [by right | left; by apply Hfirst].
    + intros _. by right.
  - intros [= <-]. simpl. split_and!; try done.
    intros fs' first' prev' [= <- <- <-] Hne Hin.
    by apply (HS prev); [apply Hprev|].
Qed.

(** [write_file] on one file, whatever its outcome, leaves every other
    stored file as it was: its entry, its chain and its content, so
    [read_file] delivers the same bytes afterwards.  The chain [A] of the
    file that is written must end and share no block with the chain [B] of
    the other file. *)
Theorem write_file_keeps_other_file (now : Z) (name g : string)
    (data : list byte) (fs fs' : FileSystem) (st : Status)
    (e eg : DirectoryEntry) (A B : list Z) (content : list byte) :
  formatted (boot_sector fs) → current_dir_block fs = 129 →
  stat fs name = Some e → linked (fat_table fs) (first_block e) A →
  g ≠ name → stat fs g = Some eg → stores fs eg B content →
  (∀ x, x ∈ A → x ∉ B) →
  write_file now name data fs = Some (st, fs') →
  stat fs' g = Some eg
  ∧ stores fs' eg B content
  ∧ (type eg = TYPE_FILE → read_file g fs' = Some (OK, content)).
Proof.
  intros Hfmt Hcur Hstat HlA Hg Hstatg Hstores Hdisj Hrun.
  cut (stat fs' g = Some eg ∧ stores fs' eg B content).
  { intros [? ?]. split_and!; [done..|]. intros ?.
    by eapply read_file_stores. }
  revert Hrun.
  destruct (stat_Some _ _ _ Hstat) as (dir & i & Hdir & Hfind & He).
  unfold write_file. rewrite Hdir, Hfind, <- He.
  case_decide as Htype; [by intros [= <- <-]|].
  case_decide as Hsize; [by intros [= <- <-]|].
  destruct (if decide (first_block e ≠ FAT_ENTRY_EOF)
            then free_blocks fs (first_block e) else Some fs)
    as [fs1|] eqn:Hfree1; [|done].
  pose proof (st_range _ _ _ _ Hstores) as HrB.
  assert (boot_sector fs1 = boot_sector fs
          ∧ current_dir_block fs1 = current_dir_block fs
          ∧ img_blocks (disk_file fs1) = img_blocks (disk_file fs)
          ∧ ∀ x, x ∈ B → fat_table fs1 x = fat_table fs x)
    as (Hb1 & Hc1 & Hk1 & Hf1).
  { case_decide as Hne.
    - apply free_blocks_Some in Hfree1 as (fat1 & Hfree1 & ->). simpl.
      split_and!; try done. intros x Hx.
      assert (¬ stops (first_block e) → first_block e ∈ A) as Hstart.
      { intros _. destruct A as [|y A']; [done|].
        destruct HlA as [-> _]. apply list_elem_of_here. }
      assert (∀ y, y ∈ A → ¬ stops (fat_table fs y) → fat_table fs y ∈ A)
        as Hclosed by (intros y Hy Hns; by eapply linked_closed).
      apply (free_loop_closed (λ y, y ∈ A) _ _ _ _ Hstart Hclosed Hfree1).
      intros HxA. by apply (Hdisj x).
    - by injection Hfree1 as <-. }
  clear Hfree1. simpl.
  destruct (write_loop _ fs1 data _ FAT_ENTRY_EOF FAT_ENTRY_EOF)
    as [res|] eqn:Hloop; [|done].
  simpl.
  apply (write_loop_protects (λ x, x ∈ B) (λ _, False)) in Hloop
      as (HU & Hsys & Hb2 & Hc2 & Hprev); try done.
  2:{ by rewrite Hb1. }
  2:{ intros x Hx. rewrite (Hf1 x Hx). split.
      - eapply linked_used; [apply (st_linked _ _ _ _ Hstores)|done..].
      - apply range_not_stops. by apply HrB. }
  assert (∀ fs2,
            boot_sector fs2 = boot_sector fs →
            current_dir_block fs2 = current_dir_block fs →
            (∀ x, x ∈ B →
                  fat_table fs2 x = fat_table fs x
                  ∧ img_blocks (disk_file fs2) x
                    = img_blocks (disk_file fs) x) →
            stat fs2 g = stat fs g →
            stat fs2 g = Some eg ∧ stores fs2 eg B content) as Hclose.
  { intros fs2 Hb Hc Hsame Hs. split; [congruence|].
    by apply (stores_frame fs). }
  destruct res as [fs2 first prev|err fs2]; simpl in *.
  2:{ intros [= <- <-]. apply Hclose; [congruence..| |].
      - intros x Hx. destruct (HU x Hx) as [-> ->].
        by rewrite Hf1, Hk1.
      - apply stat_frame; [congruence..|].
        rewrite Hcur, Hsys by lia. by rewrite Hk1. }
  specialize (Hprev _ _ _ eq_refl).
  set (fs3 := if decide (prev ≠ FAT_ENTRY_EOF)
              then set_fat_table fs2
                     (<[prev := FAT_ENTRY_EOF]> (fat_table fs2))
              else fs2).
  assert (boot_sector fs3 = boot_sector fs2
          ∧ current_dir_block fs3 = current_dir_block fs2
          ∧ img_blocks (disk_file fs3) = img_blocks (disk_file fs2)
          ∧ ∀ x, x ∈ B → fat_table fs3 x = fat_table fs2 x)
    as (Hb3 & Hc3 & Hk3 & Hf3).
  { unfold fs3. case_decide as Hp; [|done]. simpl. split_and!; try done.
    intros x Hx. apply fn_lookup_insert_ne. intros <-. by apply Hprev. }
  match goal with |- context [write_block fs3 ?b ?blk] =>
    destruct (write_block fs3 b blk) as [fs4|] eqn:Hwrite end.
  2:{ intros [= <- <-]. apply Hclose; [congruence..| |].
      - intros x Hx. rewrite Hf3, Hk3 by done.
        destruct (HU x Hx) as [-> ->]. by rewrite Hf1, Hk1.
      - apply stat_frame; [congruence..|].
        rewrite Hk3, Hcur, Hsys by lia. by rewrite Hk1. }
  intros [= <- <-].
  pose proof (read_dir_written _ _ _ _ Hwrite) as Hdir4.
  apply write_block_Some in Hwrite as (Hb4 & Hc4 & Hf4 & Hk4).
  apply Hclose.
  - simpl. congruence.
  - simpl. congruence.
  - intros x Hx. simpl. rewrite Hf4, Hk4, Hf3 by done.
    rewrite fn_lookup_insert_ne.
    + rewrite Hk3. destruct (HU x Hx) as [-> ->]. by rewrite Hf1, Hk1.
    + intros Heq. apply HrB in Hx. rewrite <- Heq in Hx.
      rewrite Hc3, Hc2, Hc1, Hcur in Hx. lia.
  - apply (stat_rewritten_other fs _ dir name i
             (set_file e first (u32 (Z.of_nat (strlen data))) (u32 now)));
      try done.
    + rewrite <- Hc4 in Hdir4. exact Hdir4.
    + by rewrite He.
Qed.

(** Rewriting the slot of one name by an entry that does not have another
    name does not change what the search for the other name delivers. *)
Lemma stat_slot_other fs fs' dir dir' name i e' other :
  read_dir fs (current_dir_block fs) = Some dir →
  find_file_in_directory fs (current_dir_block fs) name = Some i →
  read_dir fs' (current_dir_block fs') = Some dir' →
  entries dir' = <[i := e']> (entries dir) →
  filename e' ≠ other → other ≠ name →
  stat fs' other = stat fs other.
Proof.
  intros Hdir Hfind Hdir' Hentries Hname Hother.
  rewrite !stat_list_find, Hdir, Hdir'. simpl. rewrite Hentries.
  unfold find_file_in_directory in Hfind. rewrite Hdir in Hfind.
  simpl in Hfind.
  destruct list_find as [[j e]|] eqn:Hlf; [|done].
  simpl in Hfind. injection Hfind as ->.
  apply list_find_Some in Hlf as (Hi & [_ He] & _).
  pose proof Hi as Hlt%lookup_lt_Some. rewrite length_take in Hlt.
  rewrite take_insert_lt by lia.
  rewrite list_find_insert_other; [done| |].
  - intros y Hy [_ Hy']. congruence.
  - by intros [_ He'].
Qed.

(** The walk of [truncate_file] stays on the chain. *)
Lemma truncate_walk_in n fat b p A c p' :
  linked fat b A → truncate_walk n fat b p = (c, p') →
  (c = FAT_ENTRY_EOF ∨ c ∈ A) ∧ (p' = p ∨ p' ∈ A).
Proof.
  revert b p A. induction n as [|n IH]; intros b p A Hl; simpl.
  - intros [= <- <-]. split; [|by left].
    destruct A as [|x A]; [by left|]. destruct Hl as [-> _].
    right. apply list_elem_of_here.
  - case_decide as Hb.
    + destruct A as [|x A]; [done|]. destruct Hl as [-> Hl].
      intros [Hc Hp]%(IH _ _ A Hl). split.
      * destruct Hc; [by left|]. right. by apply list_elem_of_further.
      * right. destruct Hp as [->|?];
          [apply list_elem_of_here | by apply list_elem_of_further].
    + intros [= <- <-]. split; [|by left]. left.
      first [done | by apply dec_stable].
Qed.

(** [delete_file] and [truncate_file] on one file, whatever their outcome,
    leave every other stored file as it was: its entry, its chain and its
    content.  The chain [A] of the file that is deleted or truncated must
    end and share no block with the chain [B] of the other file. *)
Theorem delete_and_truncate_keep_other_file (name g : string)
    (fs : FileSystem) (e eg : DirectoryEntry) (A B : list Z)
    (content : list byte) :
  current_dir_block fs = 129 →
  stat fs name = Some e → linked (fat_table fs) (first_block e) A →
  g ≠ name → stat fs g = Some eg → stores fs eg B content →
  (∀ x, x ∈ A → x ∉ B) →
  (∀ st fs',
     delete_file name fs = Some (st, fs') →
     stat fs' g = Some eg ∧ stores fs' eg B content)
  ∧ (∀ now k st fs',
       truncate_file now name k fs = Some (st, fs') →
       stat fs' g = Some eg ∧ stores fs' eg B content).
Proof.
  intros Hcur Hstat HlA Hg Hstatg Hstores Hdisj.
  destruct (stat_Some _ _ _ Hstat) as (dir & i & Hdir & Hfind & He).
  pose proof (st_range _ _ _ _ Hstores) as HrB.
  assert (∀ y, y ∈ A → ¬ stops (fat_table fs y) → fat_table fs y ∈ A)
    as Hclosed by (intros y Hy Hns; by eapply linked_closed).
  pose proof (stat_name _ _ _ Hstat) as [Hname Hename].
  pose proof (stat_name _ _ _ Hstatg) as [Hgname _].
  assert (∀ fs2 dir2 e2,
            boot_sector fs2 = boot_sector fs →
            current_dir_block fs2 = current_dir_block fs →
            (∀ x, x ∈ B → fat_table fs2 x = fat_table fs x) →
            (∀ x, x ≠ 129 →
                  img_blocks (disk_file fs2) x
                  = img_blocks (disk_file fs) x) →
            read_dir fs2 (current_dir_block fs2) = Some dir2 →
            entries dir2 = <[i := e2]> (entries dir) →
            filename e2 ≠ g →
            stat fs2 g = Some eg ∧ stores fs2 eg B content) as Hclose.
  { intros fs2 dir2 e2 Hb Hc Hf Hk Hdir2 Hentries Hne. split.
    - rewrite <- Hstatg. by eapply stat_slot_other.
    - apply (stores_frame fs); [done| |done].
      intros x Hx. split; [by apply Hf|]. apply Hk.
      apply HrB in Hx. lia. }
  split.
  - intros st fs'. unfold delete_file. rewrite Hdir, Hfind, <- He.
    case_decide as Htype; [by intros [= <- <-]|].
    destruct (if decide (first_block e ≠ FAT_ENTRY_EOF)
              then free_blocks fs (first_block e) else Some fs)
      as [fs1|] eqn:Hfree1; [|done].
    assert (boot_sector fs1 = boot_sector fs
            ∧ current_dir_block fs1 = current_dir_block fs
            ∧ img_blocks (disk_file fs1) = img_blocks (disk_file fs)
            ∧ ∀ x, x ∈ B → fat_table fs1 x = fat_table fs x)
      as (Hb1 & Hc1 & Hk1 & Hf1).
    { destruct (decide (first_block e ≠ FAT_ENTRY_EOF)) as [Hne|].
      - apply free_blocks_Some in Hfree1 as (fat1 & Hfree1 & ->). simpl.
        split_and!; try done. intros x Hx.
        assert (¬ stops (first_block e) → first_block e ∈ A) as Hstart.
        { intros _. destruct A as [|y A']; [done|].
          destruct HlA as [-> _]. apply list_elem_of_here. }
        apply (free_loop_closed (λ y, y ∈ A) _ _ _ _ Hstart Hclosed Hfree1).
        intros HxA. by apply (Hdisj x).
      - by injection Hfree1 as <-. }
    simpl. destruct write_block as [fs2|] eqn:Hwrite.
    + intros [= <- <-].
      pose proof (read_dir_written _ _ _ _ Hwrite) as Hdir2.
      apply write_block_Some in Hwrite as (Hb2 & Hc2 & Hf2 & Hk2).
      apply (Hclose fs2 (set_entry_count (set_entry dir i zero_entry)
                                         (u16 (entry_count dir - 1)))
               zero_entry); [congruence|congruence| | | |done|].
      * intros x Hx. rewrite Hf2. by apply Hf1.
      * intros x Hx. rewrite Hk2, Hc1, Hcur, fn_lookup_insert_ne by done.
        by rewrite Hk1.
      * by rewrite Hc2.
      * simpl. congruence.
    + intros [= <- <-]. split.
      * rewrite <- Hstatg. apply stat_frame; [done..|]. by rewrite Hk1.
      * apply (stores_frame fs); [done| |done].
        intros x Hx. split; [by apply Hf1 | by rewrite Hk1].
  - intros now k st fs'. unfold truncate_file. rewrite Hdir, Hfind, <- He.
    case_decide as Htype; [by intros [= <- <-]|].
    case_decide as Hgrow; [by intros [= <- <-]|].
    case_decide as Hsame; [by intros [= <- <-]|].
    destruct (truncate_walk _ (fat_table fs) (first_block e) FAT_ENTRY_EOF)
      as [c p] eqn:Hwalk.
    apply (truncate_walk_in _ _ _ _ A) in Hwalk as [Hc Hp]; [|done].
    destruct (if decide (c ≠ FAT_ENTRY_EOF) then _ else Some fs)
      as [fs1|] eqn:Hfree1; [|done].
    assert (boot_sector fs1 = boot_sector fs
            ∧ current_dir_block fs1 = current_dir_block fs
            ∧ img_blocks (disk_file fs1) = img_blocks (disk_file fs)
            ∧ ∀ x, x ∈ B → fat_table fs1 x = fat_table fs x)
      as (Hb1 & Hc1 & Hk1 & Hf1).
    { destruct (decide (c ≠ FAT_ENTRY_EOF)) as [Hne|];
        [|by injection Hfree1 as <-].
      destruct (free_blocks fs c) as [fs0|] eqn:Hfree0; [|done].
      simpl in Hfree1. injection Hfree1 as <-.
      apply free_blocks_Some in Hfree0 as (fat1 & Hfree0 & ->).
      assert (∀ x, x ∈ B → fat1 x = fat_table fs x) as Hf0.
      { intros x Hx.
        assert (¬ stops c → c ∈ A) as Hstart by (by destruct Hc).
        apply (free_loop_closed (λ y, y ∈ A) _ _ _ _ Hstart Hclosed Hfree0).
        intros HxA. by apply (Hdisj x). }
      destruct (decide (p ≠ FAT_ENTRY_EOF)) as [Hpne|]; simpl;
        split_and!; try done.
      intros x Hx. rewrite fn_lookup_insert_ne; [by apply Hf0|].
      intros <-. destruct Hp as [?|Hp]; [done|]. by apply (Hdisj p). }
    simpl. destruct write_block as [fs2|] eqn:Hwrite.
    + intros [= <- <-].
      pose proof (read_dir_written _ _ _ _ Hwrite) as Hdir2.
      apply write_block_Some in Hwrite as (Hb2 & Hc2 & Hf2 & Hk2).
      apply (Hclose fs2
               (set_entry dir i (set_file e (first_block e) k (u32 now)))
               (set_file e (first_block e) k (u32 now)));
        [congruence|congruence| | | |done|].
      * intros x Hx. rewrite Hf2. by apply Hf1.
      * intros x Hx. rewrite Hk2, Hc1, Hcur, fn_lookup_insert_ne by done.
        by rewrite Hk1.
      * by rewrite Hc2.
      * simpl. congruence.
    + intros [= <- <-]. split.
      * rewrite <- Hstatg. apply stat_frame; [done..|]. by rewrite Hk1.
      * apply (stores_frame fs); [done| |done].
        intros x Hx. split; [by apply Hf1 | by rewrite Hk1].
Qed.


End Isolation.
(** * The table on the disk *)

Section Sync.
Context `{Layout}.

Lemma mounted_frame fs fs' :
  mounted fs →
  img_boot (disk_file fs') = img_boot (disk_file fs) →
  boot_sector fs' = boot_sector fs →
  current_dir_block fs' = current_dir_block fs →
  mounted fs'.
Proof. intros (Hi & Hs & Hf & Hc) Hi' Hb' Hc'. split_and!; congruence. Qed.

Lemma synced_frame fs fs' :
  synced fs →
  img_fat (disk_file fs') = img_fat (disk_file fs) →
  fat_table fs' = fat_table fs →
  synced fs'.
Proof. intros Hs Hi Hf i Hr. rewrite Hi, Hf. by apply Hs. Qed.

Lemma write_block_synced fs b blk fs' :
  write_block fs b blk = Some fs' →
  (mounted fs → mounted fs') ∧ (synced fs → synced fs').
Proof.
  intros Hw. pose proof (write_block_image _ _ _ _ Hw) as [Hi Hf].
  apply write_block_Some in Hw as (Hb & Hc & Ht & _). split.
  - intros Hm. by apply (mounted_frame fs).
  - intros Hs. by apply (synced_frame fs).
Qed.

Lemma flush_fat_synced fs :
  mounted fs → mounted (flush_fat fs) ∧ synced (flush_fat fs).
Proof.
  intros Hm. split; [by apply (mounted_frame fs)|].
  intros i Hi. apply (flushed_cell fs); [apply Hm|done].
Qed.

Lemma free_blocks_synced fs b fs' :
  mounted fs → free_blocks fs b = Some fs' → mounted fs' ∧ synced fs'.
Proof.
  intros Hm (fat' & _ & ->)%free_blocks_Some.
  apply flush_fat_synced. by apply (mounted_frame fs).
Qed.

Lemma allocate_block_synced fs :
  mounted fs → synced fs →
  mounted (allocate_block fs).2 ∧ synced (allocate_block fs).2.
Proof.
  intros Hm Hs. unfold allocate_block. destruct allocate_scan; [|done].
  simpl. apply flush_fat_synced. by apply (mounted_frame fs).
Qed.

(** The loop of [write_file] keeps the boot sector; it may leave the last
    link of the chain in memory only. *)
Lemma write_loop_mounted fuel fs d r first prev res :
  mounted fs → write_loop fuel fs d r first prev = Some res →
  mounted (write_loop_state res).
Proof.
  revert fs d r first prev. induction fuel as [|fuel IH];
    intros fs d r first prev Hm; rewrite write_loop_unfold;
    case_decide as Hpos; try done; try (by intros [= <-]).
  pose proof (allocate_block_frame fs) as (Hb1 & Hc1 & _).
  assert (mounted (allocate_block fs).2) as Hm1.
  { unfold allocate_block in *. destruct allocate_scan; [|done].
    by apply (mounted_frame fs). }
  destruct (allocate_block fs) as [new fs1]. simpl in *.
  case_decide as Hnew.
  - case_decide.
    + destruct (free_blocks fs1 first) as [fs2|] eqn:Hfree; [|done].
      simpl. intros [= <-]. simpl. by eapply free_blocks_synced.
    + simpl. by intros [= <-].
  - cbv zeta.
    set (fs2 := if decide (prev ≠ FAT_ENTRY_EOF)
                then set_fat_table fs1 (<[prev := new]> (fat_table fs1))
                else fs1).
    assert (mounted fs2) as Hm2
      by (unfold fs2; destruct (decide (prev ≠ FAT_ENTRY_EOF)); [|done];
          by apply (mounted_frame fs1)).
    match goal with |- context [write_block _ _ ?b] => set (blk := b) end.
    destruct (write_block fs2 new blk) as [fs3|] eqn:Hwrite.
    + apply IH. by apply (write_block_synced _ _ _ _ Hwrite).
    + destruct (free_blocks fs2 _) as [fs3|] eqn:Hfree; [|done].
      simpl. intros [= <-]. simpl. by eapply free_blocks_synced.
Qed.

Lemma create_file_synced now name fs fs' :
  mounted fs → synced fs → create_file now name fs = (OK, fs') →
  mounted fs' ∧ synced fs'.
Proof.
  intros Hm Hs (dir & i & _ & _ & _ & _ & Hw)%create_file_OK.
  apply write_block_synced in Hw as [? ?]. auto.
Qed.

Lemma delete_file_synced name fs fs' :
  mounted fs → synced fs → delete_file name fs = Some (OK, fs') →
  mounted fs' ∧ synced fs'.
Proof.
  intros Hm Hs. unfold delete_file.
  destruct (read_dir fs (current_dir_block fs)) as [dir|]; [|done].
  destruct (find_file_in_directory fs (current_dir_block fs) name)
    as [i|]; [|done].
  case_decide; [done|].
  destruct (if decide (first_block (entries dir !!! i) ≠ FAT_ENTRY_EOF)
            then free_blocks fs (first_block (entries dir !!! i))
            else Some fs) as [fs1|] eqn:Hfree; [|done].
  assert (mounted fs1 ∧ synced fs1) as [Hm1 Hs1].
  { case_decide; [by eapply free_blocks_synced|]. by injection Hfree as <-. }
  simpl. destruct write_block as [fs2|] eqn:Hw; [|done].
  intros [= <-]. apply write_block_synced in Hw as [? ?]. auto.
Qed.

Lemma write_file_synced now name data fs fs' :
  mounted fs → write_file now name data fs = Some (OK, fs') →
  mounted fs' ∧ synced fs'.
Proof.
  intros Hm. unfold write_file.
  destruct (read_dir fs (current_dir_block fs)) as [dir|]; [|done].
  destruct (find_file_in_directory fs (current_dir_block fs) name)
    as [i|]; [|done].
  case_decide; [done|]. case_decide; [done|].
  destruct (if decide (first_block (entries dir !!! i) ≠ FAT_ENTRY_EOF)
            then free_blocks fs (first_block (entries dir !!! i))
            else Some fs) as [fs1|] eqn:Hfree; [|done].
  assert (mounted fs1) as Hm1.
  { case_decide; [by eapply free_blocks_synced|]. by injection Hfree as <-. }
  simpl.
  destruct (write_loop _ fs1 data _ FAT_ENTRY_EOF FAT_ENTRY_EOF)
    as [res|] eqn:Hloop; [|done].
  apply write_loop_mounted in Hloop; [|done]. simpl.
  destruct res as [fs2 first prev|err fs2]; [|done]. simpl in Hloop.
  set (fs3 := if decide (prev ≠ FAT_ENTRY_EOF)
              then set_fat_table fs2
                     (<[prev := FAT_ENTRY_EOF]> (fat_table fs2))
              else fs2).
  assert (mounted fs3) as Hm3
    by (unfold fs3; destruct (decide (prev ≠ FAT_ENTRY_EOF)); [|done];
        by apply (mounted_frame fs2)).
  destruct write_block as [fs4|] eqn:Hw; [|done].
  intros [= <-]. apply flush_fat_synced.
  by apply (write_block_synced _ _ _ _ Hw).
Qed.

Lemma create_directory_synced now name fs fs' :
  mounted fs → synced fs → create_directory now name fs = Some (OK, fs') →
  mounted fs' ∧ synced fs'.
Proof.
  intros Hm Hs. unfold create_directory.
  case_decide; [done|].
  destruct (read_dir fs (current_dir_block fs)) as [dir|]; [|done].
  destruct (find_file_in_directory fs (current_dir_block fs) name);
    [done|].
  destruct (find_free_directory_entry fs (current_dir_block fs))
    as [i|]; [|done].
  pose proof (allocate_block_synced fs Hm Hs) as [Hm1 Hs1].
  destruct (allocate_block fs) as [new fs1]. simpl in *.
  case_decide; [done|]. cbv zeta.
  match goal with |- context [write_block fs1 new ?b] =>
    destruct (write_block fs1 new b) as [fs2|] eqn:Hw2 end.
  2:{ by destruct free_blocks. }
  apply write_block_synced in Hw2 as [Hm2 Hs2].
  destruct write_block as [fs3|] eqn:Hw3; [|done].
  intros [= <-]. apply write_block_synced in Hw3 as [? ?]. auto.
Qed.


Lemma linked_junction fat b l1 l2 p :
  linked fat b (l1 ++ l2) → last l1 = Some p →
  fat p = default FAT_ENTRY_EOF (head l2).
Proof.
  revert b. induction l1 as [|x l1 IH]; intros b; [done|].
  intros [-> Hl]. destruct l1 as [|y l1].
  - intros [= <-]. simpl in Hl. by apply linked_first in Hl.
  - intros Hlast. by eapply IH.
Qed.


(** Every successful [create_file], [delete_file], [write_file] and
    [create_directory] on a mounted image whose table is on the disk
    leaves the table on the disk: each change of a cell is followed by the
    loop "Write updated FAT to disk" before the operation returns 0. *)
Theorem successful_operations_keep_table_on_disk (fs : FileSystem) :
  mounted fs → synced fs →
  (∀ now name fs',
     create_file now name fs = (OK, fs') → mounted fs' ∧ synced fs')
  ∧ (∀ name fs',
       delete_file name fs = Some (OK, fs') → mounted fs' ∧ synced fs')
  ∧ (∀ now name data fs',
       write_file now name data fs = Some (OK, fs') →
       mounted fs' ∧ synced fs')
  ∧ (∀ now name fs',
       create_directory now name fs = Some (OK, fs') →
       mounted fs' ∧ synced fs').
Proof.
  intros Hm Hs. split_and!.
  - intros now name fs'. by apply create_file_synced.
  - intros name fs'. by apply delete_file_synced.
  - intros now name data fs'. by apply write_file_synced.
  - intros now name fs'. by apply create_directory_synced.
Qed.


(** [truncate_file] that cuts a chain writes the new end of the chain to
    the table in memory only: the last block [p] that the file keeps is
    [FAT_ENTRY_EOF] in memory, while its cell in the FAT blocks of the image
    still links to the first freed block [q], which is [FAT_ENTRY_FREE].
    The table is not on the disk when the call returns 0. *)
Theorem truncate_file_keeps_old_link_on_disk (now : Z) (name : string)
    (k : Z) (fs : FileSystem) (e : DirectoryEntry) (A : list Z)
    (content : list byte) :
  mounted fs →
  stat fs name = Some e → type e = TYPE_FILE → stores fs e A content →
  0 < k → blocks_for k < blocks_for (file_size e) →
  ∃ fs' p q,
    truncate_file now name k fs = Some (OK, fs')
    ∧ A !! (Z.to_nat (blocks_for k) - 1)%nat = Some p
    ∧ A !! Z.to_nat (blocks_for k) = Some q
    ∧ fat_table fs' p = FAT_ENTRY_EOF
    ∧ fat_table fs' q = FAT_ENTRY_FREE
    ∧ img_fat (disk_file fs') p = q
    ∧ q ≠ FAT_ENTRY_EOF
    ∧ ¬ synced fs'.
Proof.
  intros Hm Hstat Htype Hstores Hk Hcut.
  pose proof Hm as (_ & _ & Hfmt & Hcur).
  pose proof Hfmt as (_ & _ & Hroot & _). rewrite Hroot in Hcur.
  pose proof Hstores as [Hl Hnd Hr Hlen _ Hsize _].
  assert (k < file_size e) as Hlt.
  { destruct (decide (k < file_size e)); [done|].
    pose proof (blocks_for_mono (file_size e) k). lia. }
  destruct (truncate_file_stores now name k fs e A content)
    as (fs' & Hrun & _ & Hst' & Hfreed & _ & _ & _ & _ & _ & Hstale);
    [done..|lia|].
  specialize (Hst' Hk).
  set (n := Z.to_nat (blocks_for k)) in *.
  pose proof (blocks_for_pos k Hk) as Hn.
  pose proof (blocks_for_nonneg (file_size e)) as Hn'.
  assert (n < length A)%nat as HnA by (unfold n; lia).
  destruct (lookup_lt_is_Some_2 A n HnA) as [q Hq].
  destruct (lookup_lt_is_Some_2 A (n - 1)) as [p Hp]; [lia|].
  assert (last (take n A) = Some p) as Hlast.
  { rewrite last_lookup, length_take, Nat.min_l by lia.
    replace (Init.Nat.pred n) with (n - 1)%nat by lia.
    rewrite lookup_take_lt by lia. done. }
  assert (head (drop n A) = Some q) as Hhead.
  { rewrite head_lookup, lookup_drop. by rewrite Nat.add_0_r. }
  assert (q ∈ drop n A) as Hqin.
  { apply list_elem_of_lookup. exists 0%nat.
    by rewrite lookup_drop, Nat.add_0_r. }
  assert (p ∉ drop n A) as Hpout.
  { rewrite <- (take_drop n A) in Hnd.
    apply NoDup_app in Hnd as (_ & Hdis & _). apply Hdis.
    by apply last_Some_elem_of. }
  assert (130 ≤ p < 65534) as Hprange
    by (apply Hr; by eapply list_elem_of_lookup_2).
  assert (130 ≤ q < 65534) as Hqrange
    by (apply Hr; by eapply list_elem_of_lookup_2).
  assert (fat_table fs' p = FAT_ENTRY_EOF) as Hend
    by (eapply linked_last; [apply (st_linked _ _ _ _ Hst')|done]).
  assert (img_fat (disk_file fs') p = q) as Hdisk.
  { rewrite Hstale; [| |rewrite MAX_BLOCKS_eq; lia|done].
    - rewrite <- (take_drop n A) in Hl.
      rewrite (linked_junction _ _ _ _ _ Hl Hlast). by rewrite Hhead.
    - intros Hnil. rewrite Hnil in Hqin. by apply elem_of_nil in Hqin. }
  exists fs', p, q. split_and!; try done.
  - by apply Hfreed.
  - unfold FAT_ENTRY_EOF. lia.
  - intros Hs. specialize (Hs p). rewrite Hdisk, Hend in Hs.
    rewrite MAX_BLOCKS_eq in Hs. unfold FAT_ENTRY_EOF in Hs. lia.
Qed.

End Sync.
(** * Directories *)

Section Mkdir.
Context `{Layout}.



End Mkdir.
(** * Errors and edge cases of the file operations *)

Lemma free_fuel_S : ∃ n, free_fuel = S n.
Proof.
  exists (Z.to_nat (MAX_BLOCKS + 1)). unfold free_fuel.
  rewrite MAX_BLOCKS_eq. lia.
Qed.

Lemma strlen_le (s : list byte) : (strlen s ≤ length s)%nat.
Proof.
  induction s as [|b s IH]; simpl; [lia|]. case_decide; lia.
Qed.

Section Errors.
Context `{Layout}.

(** [read_file], [write_file] and [truncate_file] on a name that is not
    found fail with "File not found", and on an entry that is not a file
    with "Not a file"; [write_file] of more than
    [MAX_FILE_BLOCKS * BLOCK_SIZE] bytes fails with "File too large".  None
    of these calls changes the state, and [read_file] prints nothing. *)
Theorem file_operations_reject (now : Z) (name : string) (data : list byte)
    (k : Z) (fs : FileSystem) :
  is_Some (read_dir fs (current_dir_block fs)) →
  (stat fs name = None →
   read_file name fs = Some (Fail NotFound, [])
   ∧ write_file now name data fs = Some (Fail NotFound, fs)
   ∧ truncate_file now name k fs = Some (Fail NotFound, fs))
  ∧ (∀ e, stat fs name = Some e → type e ≠ TYPE_FILE →
          read_file name fs = Some (Fail NotAFile, [])
          ∧ write_file now name data fs = Some (Fail NotAFile, fs)
          ∧ truncate_file now name k fs = Some (Fail NotAFile, fs))
  ∧ (∀ e, stat fs name = Some e → type e = TYPE_FILE →
          MAX_FILE_BLOCKS * BLOCK_SIZE < Z.of_nat (strlen data) < 2 ^ 32 →
          write_file now name data fs = Some (Fail TooLarge, fs)).
Proof.
  intros [dir Hdir]. unfold stat, read_file, write_file, truncate_file.
  rewrite Hdir. simpl. split_and!.
  - intros Hnone.
    by destruct (find_file_in_directory fs (current_dir_block fs) name).
  - intros e He Htype.
    destruct (find_file_in_directory fs (current_dir_block fs) name)
      as [i|]; [|done].
    simpl in He. injection He as ->. by rewrite !decide_True.
  - intros e He Htype Hlen.
    destruct (find_file_in_directory fs (current_dir_block fs) name)
      as [i|]; [|done].
    simpl in He. injection He as ->.
    rewrite decide_False by (by intros []).
    rewrite u32_small by lia. by rewrite decide_True by lia.
Qed.


(** A block that [allocate_block] hands out and [free_blocks] takes back
    leaves the table as it was before the allocation; [free_blocks] does
    nothing for the index 0xFFFE. *)
Theorem allocate_then_free_restores (fs fs1 : FileSystem) (b : Z) :
  formatted (boot_sector fs) →
  allocate_block fs = (b, fs1) → b ≠ FAT_ENTRY_FREE →
  ∃ fs2,
    free_blocks fs1 b = Some fs2
    ∧ (b ≠ FAT_ENTRY_EOF → ∀ x, fat_table fs2 x = fat_table fs x)
    ∧ (b = FAT_ENTRY_EOF →
       fat_table fs2 = <[b := FAT_ENTRY_EOF]> (fat_table fs))
    ∧ img_blocks (disk_file fs2) = img_blocks (disk_file fs).
Proof.
  intros Hfmt Halloc Hb.
  apply (allocate_block_inv _ _ _ Hfmt) in Halloc
      as (Hb1 & Hc1 & Hk1 & [(Hr & Hfree & Hmin & Hf1)|(-> & _)]); [|done].
  unfold free_blocks. destruct free_fuel_S as [n ->].
  destruct (decide (b = FAT_ENTRY_EOF)) as [->|Hne].
  - rewrite free_loop_stops by (by left). simpl. eexists.
    split; [done|]. by split_and!.
  - rewrite free_loop_step by (rewrite stops_cases; unfold FAT_ENTRY_EOF in *;
                               lia).
    rewrite Hf1, fn_lookup_insert.
    rewrite free_loop_stops by (by left). simpl. eexists.
    split; [done|]. simpl. split_and!; try done.
    intros _ x. destruct (decide (x = b)) as [->|].
    + by rewrite fn_lookup_insert.
    + by rewrite !fn_lookup_insert_ne.
Qed.

End Errors.
(** * The listing of a directory *)




Section Listing.
Context `{Layout}.



End Listing.
(** * Names in a directory *)



Section Names.
Context `{Layout}.










End Names.
(** * The operations on concrete images *)

Lemma pair_result {A B} (p : A * B) (a : A) : p.1 = a → p = (a, p.2).
Proof. destruct p. simpl. by intros ->. Qed.

Section OperationExamples.
#[local] Existing Instance example_layout.

Lemma fs_fresh_mounted : mounted fs_fresh ∧ synced fs_fresh.
Proof.
  split.
  - split_and!; by vm_compute.
  - intros i Hi. rewrite MAX_BLOCKS_eq in Hi.
    change (fat_table fs_fresh i)
      with (if decide (0 ≤ i ∧ i / (BLOCK_SIZE / 2) < 128)
            then img_fat (disk_file fs_fresh) i else 0).
    rewrite decide_True; [done|]. change (BLOCK_SIZE / 2) with 512.
    split; [lia|]. apply Z.div_lt_upper_bound; lia.
Qed.

Lemma fs_created_run : create_file 1 "a.txt" fs_fresh = (OK, fs_created).
Proof. apply pair_result. by vm_compute. Qed.

Lemma fs_hello_run :
  write_file 2 "a.txt" hello fs_created = Some (OK, fs_hello).
Proof. apply run_result. by vm_compute. Qed.

Lemma fs_created_mounted : mounted fs_created ∧ synced fs_created.
Proof.
  destruct fs_fresh_mounted as [Hm Hs].
  exact (create_file_synced _ _ _ _ Hm Hs fs_created_run).
Qed.

Lemma fs_hello_mounted : mounted fs_hello ∧ synced fs_hello.
Proof.
  exact (write_file_synced _ _ _ _ _ (proj1 fs_created_mounted)
           fs_hello_run).
Qed.













Lemma fs_two_blocks_run :
  write_file 2 "a.txt" xs1025 fs_created = Some (OK, fs_two_blocks).
Proof. apply run_result. by vm_compute. Qed.

Lemma fs_two_blocks_mounted : mounted fs_two_blocks ∧ synced fs_two_blocks.
Proof.
  exact (write_file_synced _ _ _ _ _ (proj1 fs_created_mounted)
           fs_two_blocks_run).
Qed.

Lemma fs_two_blocks_stat :
  stat fs_two_blocks "a.txt" = Some two_blocks_entry.
Proof. by vm_compute. Qed.

Lemma fs_two_blocks_stores :
  stores fs_two_blocks two_blocks_entry [130; 131] xs1025.
Proof.
  split.
  - repeat split; by vm_compute.
  - apply (bool_decide_unpack _). by vm_compute.
  - intros x Hx. repeat (apply elem_of_cons in Hx as [->|Hx]; [lia|]).
    by apply elem_of_nil in Hx.
  - by vm_compute.
  - repeat constructor; by vm_compute.
  - by vm_compute.
  - by vm_compute.
Qed.


Lemma truncate_file_keeps_old_link_on_disk_witness :
  ∃ fs' p q,
    truncate_file 3 "a.txt" 5 fs_two_blocks = Some (OK, fs')
    ∧ [130; 131] !! (Z.to_nat (blocks_for 5) - 1)%nat = Some p
    ∧ [130; 131] !! Z.to_nat (blocks_for 5) = Some q
    ∧ fat_table fs' p = FAT_ENTRY_EOF
    ∧ fat_table fs' q = FAT_ENTRY_FREE
    ∧ img_fat (disk_file fs') p = q
    ∧ q ≠ FAT_ENTRY_EOF
    ∧ ¬ synced fs'.
Proof.
  apply (truncate_file_keeps_old_link_on_disk 3 "a.txt" 5 fs_two_blocks
           two_blocks_entry [130; 131] xs1025).
  - exact (proj1 fs_two_blocks_mounted).
  - exact fs_two_blocks_stat.
  - reflexivity.
  - exact fs_two_blocks_stores.
  - lia.
  - by vm_compute.
Defined.

Lemma fs_b_created_run :
  create_file 3 "b.txt" fs_hello = (OK, fs_b_created).
Proof. apply pair_result. by vm_compute. Qed.

Lemma fs_b_written_run :
  write_file 4 "b.txt" xs1025 fs_b_created = Some (OK, fs_b_written).
Proof. apply run_result. by vm_compute. Qed.

Lemma fs_b_created_stores : stores fs_b_created hello_entry [130] hello.
Proof.
  split.
  - split; [reflexivity | by vm_compute].
  - apply NoDup_singleton.
  - intros x ->%list_elem_of_singleton. lia.
  - by vm_compute.
  - repeat constructor; by vm_compute.
  - by vm_compute.
  - by vm_compute.
Qed.

Lemma write_file_keeps_other_file_witness :
  stat fs_b_written "a.txt" = Some hello_entry
  ∧ stores fs_b_written hello_entry [130] hello
  ∧ (type hello_entry = TYPE_FILE →
     read_file "a.txt" fs_b_written = Some (OK, hello)).
Proof.
  apply (write_file_keeps_other_file 4 "b.txt" "a.txt" xs1025 fs_b_created
           fs_b_written OK (new_file_entry 3 "b.txt") hello_entry [] [130]
           hello).
  - by vm_compute.
  - reflexivity.
  - by vm_compute.
  - reflexivity.
  - done.
  - by vm_compute.
  - exact fs_b_created_stores.
  - by intros x ?%elem_of_nil.
  - exact fs_b_written_run.
Defined.


Lemma fs_b_written_stores : stores fs_b_written hello_entry [130] hello.
Proof.
  split.
  - split; [reflexivity | by vm_compute].
  - apply NoDup_singleton.
  - intros x ->%list_elem_of_singleton. lia.
  - by vm_compute.
  - repeat constructor; by vm_compute.
  - by vm_compute.
  - by vm_compute.
Qed.

Lemma delete_and_truncate_keep_other_file_witness :
  (∀ st fs',
     delete_file "b.txt" fs_b_written = Some (st, fs') →
     stat fs' "a.txt" = Some hello_entry
     ∧ stores fs' hello_entry [130] hello)
  ∧ (∀ now k st fs',
       truncate_file now "b.txt" k fs_b_written = Some (st, fs') →
       stat fs' "a.txt" = Some hello_entry
       ∧ stores fs' hello_entry [130] hello).
Proof.
  apply (delete_and_truncate_keep_other_file "b.txt" "a.txt" fs_b_written
           (mkDirectoryEntry "b.txt" 1025 131 TYPE_FILE 3 4 0) hello_entry
           [131; 132] [130] hello).
  - reflexivity.
  - by vm_compute.
  - repeat split; by vm_compute.
  - done.
  - by vm_compute.
  - exact fs_b_written_stores.
  - intros x Hx ->%list_elem_of_singleton.
    repeat (apply elem_of_cons in Hx as [?|Hx]; [done|]).
    by apply elem_of_nil in Hx.
Defined.


Lemma successful_operations_keep_table_on_disk_witness :
  mounted fs_hello_dir ∧ synced fs_hello_dir.
Proof.
  apply (proj2 (proj2 (proj2 (successful_operations_keep_table_on_disk
                                fs_hello (proj1 fs_hello_mounted)
                                (proj2 fs_hello_mounted)))) 3 "d").
  apply run_result. by vm_compute.
Defined.





Lemma file_operations_reject_witness :
  (read_file "zz" fs_hello_dir = Some (Fail NotFound, [])
   ∧ write_file 9 "zz" hello fs_hello_dir
     = Some (Fail NotFound, fs_hello_dir)
   ∧ truncate_file 9 "zz" 0 fs_hello_dir
     = Some (Fail NotFound, fs_hello_dir))
  ∧ (read_file "d" fs_hello_dir = Some (Fail NotAFile, [])
     ∧ write_file 9 "d" hello fs_hello_dir
       = Some (Fail NotAFile, fs_hello_dir)
     ∧ truncate_file 9 "d" 0 fs_hello_dir
       = Some (Fail NotAFile, fs_hello_dir)).
Proof.
  assert (is_Some (read_dir fs_hello_dir (current_dir_block fs_hello_dir)))
    as Hdir by (vm_compute; by eexists).
  split.
  - apply (proj1 (file_operations_reject 9 "zz" hello 0 fs_hello_dir Hdir)).
    by vm_compute.
  - apply (proj1 (proj2 (file_operations_reject 9 "d" hello 0 fs_hello_dir
                           Hdir))
             (mkDirectoryEntry "d" 0 131 TYPE_DIRECTORY 3 3 0));
      by vm_compute.
Defined.


Lemma allocate_then_free_restores_witness :
  ∃ fs2,
    free_blocks (allocate_block fs_hello).2 131 = Some fs2
    ∧ (131 ≠ FAT_ENTRY_EOF → ∀ x, fat_table fs2 x = fat_table fs_hello x)
    ∧ (131 = FAT_ENTRY_EOF →
       fat_table fs2 = <[131 := FAT_ENTRY_EOF]> (fat_table fs_hello))
    ∧ img_blocks (disk_file fs2) = img_blocks (disk_file fs_hello).
Proof.
  apply (allocate_then_free_restores fs_hello (allocate_block fs_hello).2
           131).
  - by vm_compute.
  - apply pair_result. by vm_compute.
  - done.
Defined.





End OperationExamples.
